(** * Numeric grounding verifier (app/guards.py)

    A shallow embedding of the guard module of the article generator, and
    the properties its specification states about it.

    - Python [str] is a sequence of Unicode code points: [str := list N].
    - The classes [\d], [\s] and [\b] of Python's [re] follow the Unicode
      character database on code points above 127.  That table belongs to
      the interpreter, not to the repository: it is the record [ucd], a
      variable of the development.  Below 128 the classes are written
      out.
    - [float], [round] and the fixed-point format are modelled exactly: a
      finite binary64 value is a sign and a dyadic rational [m * 2^e].
    - The two patterns are values of a small regular-expression syntax,
      run by a backtracking matcher with the priorities of [re].
    - A raised exception is the [Raise] outcome of the [result] monad.
    - Of app/main.py the development has what the endpoints do with the
      result of the guard, and the helper [_get] that reads the rows the
      facts are made of. *)

From Stdlib Require Import ZArith NArith List String Ascii Lia Bool DecimalString.
From stdpp Require Import base option list gmap sets.

Set Warnings "-clear-no-such-hyp".

(* ------------------------------------------------------------------ *)
(** ** Text *)

(** A character is a code point, a string a list of them. *)
Abbreviation char := N (only parsing).
Abbreviation str := (list N) (only parsing).

(** A literal of ASCII characters as a Python string. *)
Definition lit (s : string) : str := map N_of_ascii (list_ascii_of_string s).

(** U+2013, the en dash of [_SCORE_RE]. *)
Definition en_dash : char := 8211%N.

(** The part of the Unicode character database that [re] and [float]
    consult, for code points above 127:
    [decimal c] is the digit value of a character of category Nd,
    [space c] is [str.isspace], [alnum c] is [str.isalnum]. *)
Record ucd := {
  decimal : char -> option N;
  space : char -> bool;
  alnum : char -> bool
}.

(** The table in which no code point above 127 is classified.  On a text
    of ASCII characters and en dashes every table gives the same answers;
    the closed examples below are evaluated with this one. *)
Definition ascii_ucd : ucd :=
  {| decimal := fun _ => None; space := fun _ => false; alnum := fun _ => false |}.

Module Chr.
Local Open Scope N_scope.

Definition between (lo hi c : char) : bool := (lo <=? c) && (c <=? hi).

Definition is_ascii (c : char) : bool := c <? 128.

(** [[A-Za-z]] *)
Definition is_ascii_letter (c : char) : bool := between 65 90 c || between 97 122 c.

Definition is_ascii_digit (c : char) : bool := between 48 57 c.

(** Digit value of a decimal character ([Py_UNICODE_TODECIMAL]). *)
Definition to_decimal (U : ucd) (c : char) : option N :=
  if is_ascii c then (if is_ascii_digit c then Some (c - 48) else None)
  else decimal U c.

(** [\d] *)
Definition is_decimal (U : ucd) (c : char) : bool :=
  match to_decimal U c with Some _ => true | None => false end.

(** [\s] ([Py_UNICODE_ISSPACE]): below 128 these are
    TAB LF VT FF CR, FS GS RS US and the space. *)
Definition is_space (U : ucd) (c : char) : bool :=
  if is_ascii c then between 9 13 c || between 28 32 c else space U c.

(** [\w] ([Py_UNICODE_ISALNUM] or the underscore). *)
Definition is_word (U : ucd) (c : char) : bool :=
  if is_ascii c then is_ascii_letter c || is_ascii_digit c || (c =? 95)
  else alnum U c || is_decimal U c.

Definition only (a : ascii) (c : char) : bool := c =? N_of_ascii a.
End Chr.

(* ------------------------------------------------------------------ *)
(** ** Regular expressions: the fragment the two patterns use *)

Inductive regex : Type :=
| Class (p : char -> bool)                        (* one character of a class *)
| Seq (r1 r2 : regex)
| Repeat (lo : nat) (hi : option nat) (r : regex) (* greedy r{lo,hi}; None: no upper bound *)
| Group (r : regex)                               (* ( r ) *)
| NotBehind (p : char -> bool)                    (* (?<![...]) *)
| NotAhead (p : char -> bool)                     (* (?![...]) *)
| WordBoundary.                                   (* \b *)

(** A matcher state: the position in the text and the spans of the groups
    closed so far, the last one first. *)
Record mstate := MState { pos : nat; caps : list (nat * nat) }.

Definition char_at (t : str) (i : nat) : option char := t !! i.

Definition char_before (t : str) (i : nat) : option char :=
  match i with O => None | S j => t !! j end.

Definition holds (p : char -> bool) (c : option char) : bool :=
  match c with Some x => p x | None => false end.

(** A greedy repeat of [body], at least [lo] times and at most [fuel]
    more times: one more iteration is tried before stopping.  An
    iteration that consumes nothing is refused; the bodies of the repeats
    of both patterns consume a character. *)
Fixpoint repeat_loop (body : mstate -> (mstate -> option mstate) -> option mstate)
    (lo : nat) (k : mstate -> option mstate) (fuel count : nat) (st : mstate)
    {struct fuel} : option mstate :=
  let stop := if (lo <=? count)%nat then k st else None in
  match fuel with
  | O => stop
  | S fuel' =>
      match body st (fun st' => if (pos st' =? pos st)%nat then None
                                else repeat_loop body lo k fuel' (S count) st') with
      | Some res => Some res
      | None => stop
      end
  end.

(** [run r t st k]: match [r] at [st], then continue with [k]; the first
    success in the order of [re]'s backtracking.  A repeat without upper
    bound has as many iterations as the text has characters, at most. *)
Fixpoint run (U : ucd) (r : regex) (t : str) (st : mstate)
    (k : mstate -> option mstate) {struct r} : option mstate :=
  match r with
  | Class p =>
      if holds p (char_at t (pos st)) then k (MState (S (pos st)) (caps st)) else None
  | Seq r1 r2 => run U r1 t st (fun st' => run U r2 t st' k)
  | Repeat lo hi r' =>
      repeat_loop (run U r' t) lo k (match hi with Some h => h | None => length t end) O st
  | Group r' =>
      run U r' t st (fun st' => k (MState (pos st') ((pos st, pos st') :: caps st')))
  | NotBehind p => if holds p (char_before t (pos st)) then None else k st
  | NotAhead p => if holds p (char_at t (pos st)) then None else k st
  | WordBoundary =>
      if xorb (holds (Chr.is_word U) (char_before t (pos st)))
              (holds (Chr.is_word U) (char_at t (pos st)))
      then k st else None
  end.

Definition match_at (U : ucd) (r : regex) (t : str) (i : nat) : option mstate :=
  run U r t (MState i []) Some.

(** The scan of [findall]: the leftmost match from [i] on, then on from
    its end.  (Neither pattern matches the empty string.) *)
Fixpoint scan (U : ucd) (r : regex) (t : str) (fuel i : nat) : list (nat * mstate) :=
  match fuel with
  | O => []
  | S fuel' =>
      if (length t <? i)%nat then []
      else match match_at U r t i with
           | Some st =>
               (i, st) :: scan U r t fuel' (if (pos st =? i)%nat then S i else pos st)
           | None => scan U r t fuel' (S i)
           end
  end.

Definition slice (t : str) (i j : nat) : str := take (j - i) (drop i t).

Definition matches (U : ucd) (r : regex) (t : str) : list (nat * mstate) :=
  scan U r t (S (length t)) O.

(** [findall] of a pattern without groups: the matched substrings. *)
Definition findall0 (U : ucd) (r : regex) (t : str) : list str :=
  map (fun m => slice t (fst m) (pos (snd m))) (matches U r t).

(** [findall] of a pattern with two groups: the pairs of their substrings. *)
Definition findall2 (U : ucd) (r : regex) (t : str) : list (str * str) :=
  omap (fun m =>
          match caps (snd m) with
          | [(i2, j2); (i1, j1)] => Some (slice t i1 j1, slice t i2 j2)
          | _ => None
          end) (matches U r t).

(** [_NUM_RE] *)
Definition _NUM_RE (U : ucd) : regex :=
  Seq (NotBehind Chr.is_ascii_letter)                                   (* (?<![A-Za-z]) *)
 (Seq (Repeat 0 (Some 1) (Class (Chr.only "-")))                          (* -?            *)
 (Seq (Repeat 1 (Some 3) (Class (Chr.is_decimal U)))                    (* \d{1,3}       *)
 (Seq (Repeat 0 None (Seq (Class (Chr.only ","))
                          (Repeat 3 (Some 3) (Class (Chr.is_decimal U))))) (* (?:,\d{3})* *)
 (Seq (Repeat 0 (Some 1) (Seq (Class (Chr.only "."))
                              (Repeat 1 None (Class (Chr.is_decimal U))))) (* (?:\.\d+)? *)
 (Seq (Repeat 0 (Some 1) (Class (Chr.only "%")))                          (* %?            *)
      (NotAhead Chr.is_ascii_letter)))))).                              (* (?![A-Za-z])  *)

Definition is_dash (c : char) : bool := Chr.only "-" c || (c =? en_dash)%N.

(** [_SCORE_RE] *)
Definition _SCORE_RE (U : ucd) : regex :=
  Seq WordBoundary                                                      (* \b    *)
 (Seq (Group (Repeat 1 None (Class (Chr.is_decimal U))))                (* (\d+) *)
 (Seq (Repeat 0 None (Class (Chr.is_space U)))                          (* \s*   *)
 (Seq (Class is_dash)                                                   (* [-–]  *)
 (Seq (Repeat 0 None (Class (Chr.is_space U)))                          (* \s*   *)
 (Seq (Group (Repeat 1 None (Class (Chr.is_decimal U))))                (* (\d+) *)
      WordBoundary))))).                                                (* \b    *)

(** [text or ""] *)
Definition or_empty (text : option str) : str := default [] text.

Definition numbers_from_text (U : ucd) (text : option str) : list str :=
  findall0 U (_NUM_RE U) (or_empty text).

Definition scorelines_from_text (U : ucd) (text : option str) : list (str * str) :=
  findall2 U (_SCORE_RE U) (or_empty text).

(* ------------------------------------------------------------------ *)
(** ** Exceptions *)

Inductive exn := ValueError | OverflowError.

Inductive result (A : Type) : Type :=
| Ok (a : A)
| Raise (e : exn).
Arguments Ok {A} a.
Arguments Raise {A} e.

#[global] Instance result_ret : MRet result := fun A a => Ok a.

#[global] Instance result_bind : MBind result := fun A B k m =>
  match m with Ok a => k a | Raise e => Raise e end.

(** The returned value, if any. *)
Definition returned {A : Type} (m : result A) : option A :=
  match m with Ok a => Some a | Raise _ => None end.

(* ------------------------------------------------------------------ *)
(** ** binary64 numbers: [float], [round], [int], [str] and [.Nf] *)

Module Float.
Local Open Scope Z_scope.

(** [Finite neg m e] is [(-1)^neg * m * 2^e] with [0 <= m]. *)
Inductive float :=
| Finite (neg : bool) (m : Z) (e : Z)
| Infinity (neg : bool)
| NaN.

(** The integer nearest to [a / b], ties to even ([0 <= a], [0 < b]). *)
Definition div_half_even (a b : Z) : Z :=
  let q := a / b in
  match (2 * (a mod b) ?= b) with
  | Lt => q
  | Gt => q + 1
  | Eq => if Z.even q then q else q + 1
  end.

(** [floor (log2 (num / den))] for positive [num] and [den]. *)
Definition ilog2_ratio (num den : Z) : Z :=
  let e0 := Z.log2 num - Z.log2 den in
  let below := if 0 <=? e0 then num <? den * 2 ^ e0 else num * 2 ^ (- e0) <? den in
  if below then e0 - 1 else e0.

(** The binary64 number nearest to [num / den], ties to even: 53 bits
    of significand, the least exponent of a unit in the last place is
    -1074, and what rounds to 2^1024 or more is an infinity. *)
Definition nearest (neg : bool) (num den : Z) : float :=
  if num =? 0 then Finite neg 0 0
  else
    let e := ilog2_ratio num den in
    let ue := Z.max (e - 52) (-1074) in
    let m := if 0 <=? ue then div_half_even num (den * 2 ^ ue)
             else div_half_even (num * 2 ^ (- ue)) den in
    if (971 <? ue) || ((ue =? 971) && (m =? 2 ^ 53)) then Infinity neg
    else Finite neg m ue.

(** The integer nearest to [m * 2^e * 10^nd], ties to even. *)
Definition scaled_half_even (m e : Z) (nd : nat) : Z :=
  if 0 <=? e then m * 2 ^ e * 10 ^ Z.of_nat nd
  else div_half_even (m * 10 ^ Z.of_nat nd) (2 ^ (- e)).

(** [round(f)]: the nearest integer, ties to even; an infinity raises
    OverflowError and a NaN raises ValueError. *)
Definition round0 (f : float) : result Z :=
  match f with
  | Finite neg m e => let a := scaled_half_even m e 0 in Ok (if neg then - a else a)
  | Infinity _ => Raise OverflowError
  | NaN => Raise ValueError
  end.

(** [round(f, nd)] for a small [0 <= nd]: the decimal with [nd]
    fractional digits nearest to [f] (ties to even, the sign of [f]
    kept), converted back to binary64. *)
Definition round_nd (f : float) (nd : nat) : result float :=
  match f with
  | Finite neg m e =>
      match nearest neg (scaled_half_even m e nd) (10 ^ Z.of_nat nd) with
      | Infinity _ => Raise OverflowError
      | r => Ok r
      end
  | _ => Ok f
  end.

Definition str_of_N (n : N) : str :=
  lit (DecimalString.NilZero.string_of_uint (N.to_uint n)).

(** [str(i)] of an [int]. *)
Definition str_of_int (i : Z) : str :=
  if i <? 0 then lit "-" ++ str_of_N (Z.to_N (- i)) else str_of_N (Z.to_N i).

Definition zero_pad (w : nat) (s : str) : str :=
  replicate (w - length s) (N_of_ascii "0") ++ s.

(** [f"{f:.{nd}f}"] for [1 <= nd]. *)
Definition format_fixed (nd : nat) (f : float) : str :=
  match f with
  | Finite neg m e =>
      let a := scaled_half_even m e nd in
      let p := 10 ^ Z.of_nat nd in
      (if neg then lit "-" else []) ++ str_of_N (Z.to_N (a / p))
        ++ lit "." ++ zero_pad nd (str_of_N (Z.to_N (a mod p)))
  | Infinity neg => (if neg then lit "-" else []) ++ lit "inf"
  | NaN => lit "nan"
  end.

(** *** [float(s)] of a string *)

(** Decimal digits and white space of any script become ASCII, any
    other character above 127 becomes a question mark
    ([_PyUnicode_TransformDecimalAndSpaceToASCII]). *)
Definition to_ascii (U : ucd) (c : char) : char :=
  if Chr.is_ascii c then c
  else if Chr.is_space U c then 32%N
  else match Chr.to_decimal U c with
       | Some d => (48 + d)%N
       | None => 63%N
       end.

(** Underscores are dropped; each must stand between two digits. *)
Fixpoint drop_underscores (prev : char) (s : str) : option str :=
  match s with
  | [] => if Chr.only "_" prev then None else Some []
  | c :: s' =>
      if Chr.only "_" c then
        if Chr.is_ascii_digit prev then drop_underscores c s' else None
      else if Chr.only "_" prev && negb (Chr.is_ascii_digit c) then None
      else option_map (cons c) (drop_underscores c s')
  end.

(** [Py_ISSPACE] *)
Definition is_c_space (c : char) : bool := Chr.between 9%N 13%N c || (c =? 32)%N.

Fixpoint lstrip (p : char -> bool) (s : str) : str :=
  match s with
  | c :: s' => if p c then lstrip p s' else s
  | [] => []
  end.

Definition strip_space (s : str) : str :=
  reverse (lstrip is_c_space (reverse (lstrip is_c_space s))).

(** The longest prefix of digits, and what follows it. *)
Fixpoint digits (s : str) : str * str :=
  match s with
  | c :: s' =>
      if Chr.is_ascii_digit c then let '(d, r) := digits s' in (c :: d, r) else ([], s)
  | [] => ([], [])
  end.

Definition sign (s : str) : bool * str :=
  match s with
  | c :: s' => if Chr.only "-" c then (true, s')
               else if Chr.only "+" c then (false, s') else (false, s)
  | [] => (false, [])
  end.

Definition value (d : str) : Z :=
  fold_left (fun acc c => 10 * acc + (Z.of_N c - 48)) d 0.

Definition lower (c : char) : char :=
  if Chr.between 65%N 90%N c then (c + 32)%N else c.

Definition is_word_ci (w : string) (s : str) : bool :=
  bool_decide (map lower s = lit w).

(** The value of the digits [d] times [10^k]. *)
Definition of_decimal (neg : bool) (d : str) (k : Z) : float :=
  if 0 <=? k then nearest neg (value d * 10 ^ k) 1
  else nearest neg (value d) (10 ^ (- k)).

(** The grammar of [float]: a sign, then [inf], [infinity] or [nan] in
    any case, or digits with an optional point and an optional
    exponent, and at least one digit before the exponent. *)
Definition parse (s : str) : option float :=
  let '(neg, s1) := sign s in
  if is_word_ci "inf" s1 || is_word_ci "infinity" s1 then Some (Infinity neg)
  else if is_word_ci "nan" s1 then Some NaN
  else
    let '(ip, s2) := digits s1 in
    let '(fp, s3) := match s2 with
                     | c :: s2' => if Chr.only "." c then digits s2' else ([], s2)
                     | [] => ([], [])
                     end in
    if bool_decide (ip ++ fp = []) then None
    else
      let k := - Z.of_nat (length fp) in
      match s3 with
      | [] => Some (of_decimal neg (ip ++ fp) k)
      | c :: s4 =>
          if Chr.only "e" c || Chr.only "E" c then
            let '(eneg, s5) := sign s4 in
            let '(ed, s6) := digits s5 in
            if bool_decide (ed = []) || negb (bool_decide (s6 = [])) then None
            else Some (of_decimal neg (ip ++ fp)
                         (k + (if eneg then - value ed else value ed)))
          else None
      end.

(** [float(s)]; [None] when it raises ValueError. *)
Definition of_str (U : ucd) (s : str) : option float :=
  match drop_underscores 0%N (map (to_ascii U) s) with
  | Some s' => parse (strip_space s')
  | None => None
  end.
End Float.

(* ------------------------------------------------------------------ *)
(** ** app/guards.py *)

Definition ALLOW : gset str :=
  list_to_set (map lit
    [ "120"; "90"; "75"; "60"; "45"; "30"; "25"; "20"; "15"; "10"; "5"; "3"; "2"; "1";
      "2019"; "2020"; "2021"; "2022"; "2023"; "2024"; "2025"; "2026" ]%string).

(** [s.replace(c, "")] *)
Definition remove_char (c : ascii) (s : str) : str :=
  filter (fun x => x ≠ N_of_ascii c) s.

(** [s.rstrip(c)]: every trailing [c] is removed. *)
Fixpoint rstrip (c : ascii) (s : str) : str :=
  match s with
  | [] => []
  | x :: s' =>
      match rstrip c s' with
      | [] => if Chr.only c x then [] else [x]
      | r => x :: r
      end
  end.

Definition _normalize_number_token (tok : str) : str :=
  rstrip "%" (remove_char "," tok).

(** Truth of a string: it is not empty. *)
Definition truthy (s : str) : bool := match s with [] => false | _ => true end.

Definition _variants (U : ucd) (n : str) : result (gset str) :=
  let out : gset str := {[ n ]} in
  match Float.of_str U n with
  | None => Ok out
  | Some f =>
      i ← Float.round0 f;
      let out := out ∪ {[ Float.str_of_int i ]} in
      r1 ← Float.round_nd f 1;
      let out := out ∪ {[ Float.format_fixed 1 r1 ]} in
      r2 ← Float.round_nd f 2;
      let out := out ∪ {[ Float.format_fixed 2 r2 ]} in
      let trimmed := rstrip "." (rstrip "0" n) in
      Ok (if bool_decide (N_of_ascii "." ∈ n) && truthy trimmed
          then out ∪ {[ trimmed ]} else out)
  end.

(** A fact of the panel.  [value] is [None] when the key is absent or
    holds [None]; otherwise it holds a string (FactItem, and every caller
    in app/main.py). *)
Record fact := Fact { label : str; value : option str; source : str }.

(** [str(f.get("value", "") or "")] *)
Definition value_text (f : fact) : str := or_empty (value f).

(** A [for] loop whose body may raise: the state after the last
    iteration, or the first exception. *)
Definition for_each {A B : Type} (step : B -> A -> result B) (xs : list A) (init : B)
  : result B :=
  foldl (fun acc x => b ← acc; step b x) (Ok init) xs.

(** [bag.update(_variants(_normalize_number_token(tok)))] *)
Definition index_token (U : ucd) (bag : gset str) (tok : str) : result (gset str) :=
  vs ← _variants U (_normalize_number_token tok); Ok (bag ∪ vs).

(** The halves of the scorelines, in the order the loops visit them:
    [for a, b in pairs: for part in (a, b)]. *)
Definition score_parts (pairs : list (str * str)) : list str :=
  flat_map (fun ab => [fst ab; snd ab]) pairs.

(** The body of the loop over the facts. *)
Definition index_fact (U : ucd) (bag : gset str) (f : fact) : result (gset str) :=
  let v := value_text f in
  bag ← for_each (index_token U) (score_parts (scorelines_from_text U (Some v))) bag;
  for_each (index_token U) (numbers_from_text U (Some v)) bag.

Definition _index_fact_numbers (U : ucd) (facts : option (list fact)) : result (gset str) :=
  for_each (index_fact U) (default [] facts) ∅.

Definition _unique_preserve_order (items : list str) : list str :=
  snd (foldl (fun '(seen, out) x =>
                if bool_decide (x ∈ seen) then (seen, out)
                else (({[ x ]} ∪ seen) : gset str, out ++ [x]))
             (∅, []) items).

(** [not (_variants(norm) & fact_index)] *)
Definition ungrounded (U : ucd) (fact_index : gset str) (norm : str) : result bool :=
  vs ← _variants U norm; Ok (bool_decide (vs ∩ fact_index = ∅)).

(** One half of a scoreline of the body. *)
Definition check_part (U : ucd) (fact_index : gset str) (missing : list str) (part : str)
  : result (list str) :=
  let norm := _normalize_number_token part in
  if bool_decide (norm ∈ ALLOW) then Ok missing
  else u ← ungrounded U fact_index norm; Ok (if (u : bool) then missing ++ [part] else missing).

(** One standalone token of the body. *)
Definition check_token (U : ucd) (fact_index : gset str) (missing : list str) (tok : str)
  : result (list str) :=
  let raw := tok in
  let norm := _normalize_number_token tok in
  if bool_decide (norm ∈ ALLOW) || bool_decide (rstrip "%" raw ∈ ALLOW) then Ok missing
  else u ← ungrounded U fact_index norm; Ok (if (u : bool) then missing ++ [raw] else missing).

(** The list [missing] before the final deduplication. *)
Definition flagged (U : ucd) (body : option str) (facts : option (list fact))
  : result (list str) :=
  fact_index ← _index_fact_numbers U facts;
  missing ← for_each (check_part U fact_index)
              (score_parts (scorelines_from_text U (Some (or_empty body)))) [];
  for_each (check_token U fact_index) (numbers_from_text U (Some (or_empty body))) missing.

Definition assert_numbers_in_facts (U : ucd) (body : option str) (facts : option (list fact))
  : result (list str) :=
  missing ← flagged U body facts; Ok (_unique_preserve_order missing).

(** The name the specification gives to the entry point. *)
Definition find_ungrounded := assert_numbers_in_facts.

(* ------------------------------------------------------------------ *)
(** ** app/main.py: what the endpoints do around the guard *)

(** app/main.py, [_get]: the value of the first of [keys] that the row
    holds with a value other than [None], the default when there is
    none.  A row maps a key to [None] where the dict holds [None]. *)
Fixpoint _get {V : Type} (m : gmap str (option V)) (keys : list str) (default : option V)
  : option V :=
  match keys with
  | [] => default
  | k :: keys' =>
      match m !! k with
      | Some (Some v) => Some v
      | _ => _get m keys' default
      end
  end.

(** app/main.py, [summarise_round] and [summarise_preview]: the note
    that follows a body in which the guard found something. *)
Definition NOTE : str :=
  [10; 10]%N ++ lit "[Note: Certain figures omitted to maintain accuracy.]".

(** The body after the guard: [missing = assert_numbers_in_facts(body,
    facts)], then [if missing: body += NOTE]. *)
Definition validated_body (U : ucd) (body : str) (facts : list fact) : result str :=
  missing ← assert_numbers_in_facts U (Some body) (Some facts);
  Ok (match missing with [] => body | _ => body ++ NOTE end).

(** *** Definitions the statements use *)

(** A fact with the given value. *)
Definition fact_of (v : string) : fact := Fact (lit "stat") (Some (lit v)) (lit "view").

(** Modelled from the words of the specification (4.2): remove every
    comma, then strip one trailing percent sign if present. *)
Definition strip_one_percent (s : str) : str :=
  match reverse s with
  | c :: r => if Chr.only "%" c then reverse r else s
  | [] => s
  end.

Definition normalize_spec (tok : str) : str := strip_one_percent (remove_char "," tok).

(** Every token the indexer reads in a value: the halves of its
    scorelines, then its standalone numbers. *)
Definition tokens_of (U : ucd) (v : str) : list str :=
  score_parts (scorelines_from_text U (Some v)) ++ numbers_from_text U (Some v).

(** Whether the index leaves a raw token of the body ungrounded. *)
Definition stays_flagged (U : ucd) (fact_index : gset str) (tok : str) : bool :=
  match _variants U (_normalize_number_token tok) with
  | Ok vs => bool_decide (vs ∩ fact_index = ∅)
  | Raise _ => false
  end.

(** The allow-list test of the first loop, and of the second. *)
Definition skip_part (part : str) : bool :=
  bool_decide (_normalize_number_token part ∈ ALLOW).

Definition skip_token (tok : str) : bool :=
  bool_decide (_normalize_number_token tok ∈ ALLOW) || bool_decide (rstrip "%" tok ∈ ALLOW).

(** The common shape of the bodies of the two loops over the body text. *)
Definition check_with (skip : str -> bool) (U : ucd) (fact_index : gset str)
    (missing : list str) (tok : str) : result (list str) :=
  if skip tok then Ok missing
  else u ← ungrounded U fact_index (_normalize_number_token tok);
       Ok (if (u : bool) then missing ++ [tok] else missing).

(** Whether a loop appends the token: it is not allow-listed and the
    index does not ground it. *)
Definition reported (skip : str -> bool) (U : ucd) (fact_index : gset str) (tok : str) : bool :=
  negb (skip tok) && stays_flagged U fact_index tok.

(** The first occurrences of the items not yet seen, in order. *)
Fixpoint first_occurrences (seen : gset str) (items : list str) : list str :=
  match items with
  | [] => []
  | x :: rest =>
      if bool_decide (x ∈ seen) then first_occurrences seen rest
      else x :: first_occurrences ({[ x ]} ∪ seen) rest
  end.

(** The state [st] of a match in a text, seen in the text after a prefix
    of [n] characters. *)
Definition shift (n : nat) (st : mstate) : mstate :=
  MState (n + pos st) (map (fun ab => (n + fst ab, n + snd ab)) (caps st)).

(** No look-behind of [r] accepts the character [c]. *)
Fixpoint blind_to (U : ucd) (c : char) (r : regex) : bool :=
  match r with
  | Class _ | NotAhead _ => true
  | Seq r1 r2 => blind_to U c r1 && blind_to U c r2
  | Repeat _ _ r' | Group r' => blind_to U c r'
  | NotBehind p => negb (p c)
  | WordBoundary => negb (Chr.is_word U c)
  end.

(** The states a matcher started at [st] in [t] can pass on. *)
Definition in_reach (t : str) (st st' : mstate) : Prop :=
  (pos st <= pos st' /\ pos st' <= Nat.max (pos st) (length t))%nat.

(** A matcher looks at its continuation only on the states in reach, and
    succeeds only through it. *)
Definition local (t : str) (m : mstate -> (mstate -> option mstate) -> option mstate) : Prop :=
  (forall st k1 k2, (forall st', in_reach t st st' -> k1 st' = k2 st') -> m st k1 = m st k2)
  /\ (forall st, m st (fun _ => None) = None).

(** The sentence every generated body of the round trip starts with. *)
Definition the_stat_was : str := lit "The stat was ".

(** A run of 309 nines: as a decimal number it exceeds every finite
    binary64 value. *)
Definition nines : str := replicate 309 (N_of_ascii "9").

(** *** The shape of a match *)

(** Whether a character class of [r] accepts [c]. *)
Fixpoint alphabet (r : regex) (c : char) : bool :=
  match r with
  | Class p => p c
  | Seq r1 r2 => alphabet r1 c || alphabet r2 c
  | Repeat _ _ r' | Group r' => alphabet r' c
  | NotBehind _ | NotAhead _ | WordBoundary => false
  end.

(** The least number of characters a match of [r] consumes. *)
Fixpoint min_length (r : regex) : nat :=
  match r with
  | Class _ => 1
  | Seq r1 r2 => min_length r1 + min_length r2
  | Repeat lo _ r' => lo * min_length r'
  | Group r' => min_length r'
  | NotBehind _ | NotAhead _ | WordBoundary => 0
  end.

(** Every group of [r] consumes a character at least, and only
    characters that [q] accepts. *)
Fixpoint groups_within (q : char -> bool) (r : regex) : Prop :=
  match r with
  | Seq r1 r2 => groups_within q r1 /\ groups_within q r2
  | Repeat _ _ r' => groups_within q r'
  | Group r' =>
      (forall c, alphabet r' c = true -> q c = true) /\ (1 <= min_length r')%nat
      /\ groups_within q r'
  | Class _ | NotBehind _ | NotAhead _ | WordBoundary => True
  end.

(** [q] accepts the characters of [t] from position [a] up to [b]. *)
Definition spans (t : str) (q : char -> bool) (a b : nat) : Prop :=
  forall i, (a <= i < b)%nat -> holds q (char_at t i) = true.

(** A span of a group: not empty, and of characters that [q] accepts. *)
Definition good_cap (t : str) (q : char -> bool) (ab : nat * nat) : Prop :=
  (fst ab < snd ab)%nat /\ spans t q (fst ab) (snd ab).

(** The characters of a number token: sign, digit, comma, point, percent. *)
Definition number_char (U : ucd) (c : char) : bool :=
  Chr.only "-" c || Chr.is_decimal U c || Chr.only "," c || Chr.only "." c || Chr.only "%" c.

(** What a matcher passes on: the state [st'] after [r] matched from
    [st] in [t]. *)
Definition after (t : str) (q : char -> bool) (r : regex) (st st' : mstate) : Prop :=
  (pos st + min_length r <= pos st')%nat /\
  spans t (alphabet r) (pos st) (pos st') /\
  (groups_within q r -> Forall (good_cap t q) (caps st) -> Forall (good_cap t q) (caps st')).

(** A character that neither belongs to a number token nor is an ASCII
    letter. *)
Definition outside_number (U : ucd) (c : char) : bool :=
  negb (Chr.is_decimal U c || Chr.only "," c || Chr.only "." c || Chr.only "%" c
        || Chr.is_ascii_letter c).

(** A run of one to three ASCII digits. *)
Definition short_number (d : str) : Prop :=
  d ≠ [] /\ (length d <= 3)%nat /\ Forall (fun c => Chr.is_ascii_digit c = true) d.




(** A string cut into pieces of three characters, the last one shorter
    when the length is no multiple of three. *)
Fixpoint thirds (s : str) : list str :=
  match s with
  | [] => []
  | a :: b :: c :: rest => [a; b; c] :: thirds rest
  | _ => [s]
  end.

(** No look-ahead of [r] accepts the character [c]. *)
Fixpoint ahead_blind_to (U : ucd) (c : char) (r : regex) : bool :=
  match r with
  | Class _ | NotBehind _ => true
  | Seq r1 r2 => ahead_blind_to U c r1 && ahead_blind_to U c r2
  | Repeat _ _ r' | Group r' => ahead_blind_to U c r'
  | NotAhead p => negb (p c)
  | WordBoundary => negb (Chr.is_word U c)
  end.

(** No class of [r] accepts the character [c]. *)
Fixpoint stops_at (c : char) (r : regex) : bool :=
  match r with
  | Class p => negb (p c)
  | Seq r1 r2 => stops_at c r1 && stops_at c r2
  | Repeat _ _ r' | Group r' => stops_at c r'
  | NotBehind _ | NotAhead _ | WordBoundary => true
  end.

(** The final continuation of a match that has to end in the first
    [n] characters. *)
Definition within (n : nat) (st : mstate) : option mstate :=
  if (pos st <=? n)%nat then Some st else None.

(** A character beside which a token ends as it does at an end of the
    text: no word character and no character of a number. *)
Definition border (U : ucd) (c : char) : bool :=
  negb (Chr.is_word U c) && negb (number_char U c).

(** The key is not in the row, or the row holds [None] for it. *)
Definition unset {V : Type} (m : gmap str (option V)) (k : str) : Prop :=
  m !! k = None \/ m !! k = Some None.

(* ------------------------------------------------------------------ *)
(** ** Loops in the exception monad *)

Section ForEach.
Context {A B : Type} (step : B -> A -> result B).

Lemma for_each_nil (b : B) : for_each step [] b = Ok b.
Proof. reflexivity. Qed.

Lemma foldl_raise (e : exn) (xs : list A) :
  foldl (fun acc x => b ← acc; step b x) (Raise e) xs = Raise e.
Proof. induction xs as [|x xs IH]; simpl; auto. Qed.

Lemma for_each_cons (x : A) (xs : list A) (b : B) :
  for_each step (x :: xs) b = b' ← step b x; for_each step xs b'.
Proof.
  unfold for_each; simpl.
  destruct (step b x) as [b'|e]; simpl; [reflexivity | apply foldl_raise].
Qed.

Lemma for_each_app (xs ys : list A) (b : B) :
  for_each step (xs ++ ys) b = b' ← for_each step xs b; for_each step ys b'.
Proof.
  revert b; induction xs as [|x xs IH]; intros b.
  - reflexivity.
  - simpl app. rewrite !for_each_cons.
    destruct (step b x) as [b'|e]; simpl; [apply IH | reflexivity].
Qed.

Lemma for_each_snoc (xs : list A) (x : A) (b : B) :
  for_each step (xs ++ [x]) b = b' ← for_each step xs b; step b' x.
Proof.
  rewrite for_each_app. destruct (for_each step xs b) as [b'|e]; simpl; [|reflexivity].
  rewrite for_each_cons. destruct (step b' x); reflexivity.
Qed.

End ForEach.

Lemma for_each_ext {A B : Type} (step1 step2 : B -> A -> result B) (xs : list A) (b : B) :
  (forall b x, step1 b x = step2 b x) -> for_each step1 xs b = for_each step2 xs b.
Proof.
  intros Hext. revert b; induction xs as [|x xs IH]; intros b; [reflexivity|].
  rewrite !for_each_cons, Hext. destruct (step2 b x); simpl; auto.
Qed.

Lemma for_each_flat {A B C : Type} (step : B -> A -> result B) (f : C -> list A)
    (xs : list C) (b : B) :
  for_each (fun b x => for_each step (f x) b) xs b = for_each step (flat_map f xs) b.
Proof.
  revert b; induction xs as [|x xs IH]; intros b; [reflexivity|].
  simpl flat_map. rewrite for_each_cons, for_each_app.
  destruct (for_each step (f x) b); simpl; auto.
Qed.

(* ------------------------------------------------------------------ *)
(** ** Strings *)

Lemma rstrip_spec (c : ascii) (s : str) :
  ∃ k, s = rstrip c s ++ replicate k (N_of_ascii c).
Proof.
  induction s as [|x s [k IH]]; [by exists 0|].
  simpl. destruct (rstrip c s) as [|y r] eqn:E.
  - unfold Chr.only. destruct (N.eqb_spec x (N_of_ascii c)) as [->|Hx].
    + exists (S k). simpl. by rewrite IH at 1.
    + exists k. simpl. by rewrite IH at 1.
  - exists k. simpl. by rewrite IH at 1.
Qed.

Lemma rstrip_last (c : ascii) (s : str) : last (rstrip c s) ≠ Some (N_of_ascii c).
Proof.
  induction s as [|x s IH]; [done|].
  simpl. destruct (rstrip c s) as [|y r] eqn:E.
  - unfold Chr.only. destruct (N.eqb_spec x (N_of_ascii c)) as [->|Hx]; simpl; congruence.
  - change (last (x :: y :: r)) with (last (y :: r)). exact IH.
Qed.

Lemma rstrip_fixed (c : ascii) (s : str) :
  last s ≠ Some (N_of_ascii c) → rstrip c s = s.
Proof.
  induction s as [|x s IH]; [done|]. intros Hl. simpl.
  destruct s as [|y s].
  - simpl. unfold Chr.only. destruct (N.eqb_spec x (N_of_ascii c)) as [->|Hx]; [done|done].
  - rewrite IH by exact Hl. done.
Qed.

Lemma rstrip_idemp (c : ascii) (s : str) : rstrip c (rstrip c s) = rstrip c s.
Proof. apply rstrip_fixed, rstrip_last. Qed.

Lemma rstrip_elem_of (c : ascii) (s : str) (x : char) : x ∈ rstrip c s → x ∈ s.
Proof.
  destruct (rstrip_spec c s) as [k Hk]. intros Hx. rewrite Hk. set_solver.
Qed.

Lemma remove_char_not_elem (c : ascii) (s : str) : N_of_ascii c ∉ remove_char c s.
Proof. unfold remove_char. rewrite list_elem_of_filter. tauto. Qed.

Lemma remove_char_fixed (c : ascii) (s : str) : N_of_ascii c ∉ s → remove_char c s = s.
Proof.
  unfold remove_char. induction s as [|x s IH]; [done|]. intros Hn.
  rewrite filter_cons. destruct (decide (x ≠ N_of_ascii c)) as [_|Hx].
  - f_equal. apply IH. set_solver.
  - exfalso. apply Hn. apply dec_stable in Hx. subst. left.
Qed.

Lemma normalize_no_comma (tok : str) : N_of_ascii "," ∉ _normalize_number_token tok.
Proof.
  unfold _normalize_number_token. intros H%rstrip_elem_of.
  by apply remove_char_not_elem in H.
Qed.

Lemma normalize_idemp (tok : str) :
  _normalize_number_token (_normalize_number_token tok) = _normalize_number_token tok.
Proof.
  unfold _normalize_number_token at 1.
  rewrite remove_char_fixed by apply normalize_no_comma.
  unfold _normalize_number_token. apply rstrip_idemp.
Qed.

(** Where the text without commas ends in at most one percent sign, the
    function agrees with the wording of the specification. *)
Lemma normalize_agrees_with_spec (tok : str) :
  (∀ s, remove_char "," tok ≠ s ++ lit "%%") →
  _normalize_number_token tok = normalize_spec tok.
Proof.
  unfold _normalize_number_token, normalize_spec, strip_one_percent.
  set (t := remove_char "," tok). clearbody t. intros Hno.
  destruct (rstrip_spec "%" t) as [k Hk].
  pose proof (rstrip_last "%" t) as Hl.
  remember (rstrip "%" t) as r eqn:Er. clear Er.
  destruct k as [|[|k]]; simpl in Hk.
  - rewrite app_nil_r in Hk. subst t.
    destruct (reverse r) as [|c r'] eqn:E; [done|].
    unfold Chr.only. destruct (N.eqb_spec c (N_of_ascii "%")) as [->|Hc]; [|done].
    exfalso. apply Hl. apply (f_equal reverse) in E. rewrite reverse_involutive in E.
    rewrite E, reverse_cons, last_snoc. done.
  - subst t. rewrite reverse_app. simpl. by rewrite reverse_involutive.
  - exfalso. apply (Hno (r ++ replicate k (N_of_ascii "%"))).
    rewrite Hk. rewrite <- app_assoc. f_equal.
    change (replicate (2 + k) (N_of_ascii "%") = replicate k (N_of_ascii "%") ++ replicate 2 (N_of_ascii "%")).
    rewrite <- replicate_add. f_equal. lia.
Qed.

(* ------------------------------------------------------------------ *)
(** ** Order-preserving deduplication *)

Lemma unique_fold (items : list str) (seen : gset str) (out : list str) :
  snd (foldl (fun '(seen, out) x =>
                if bool_decide (x ∈ seen) then (seen, out)
                else (({[ x ]} ∪ seen) : gset str, out ++ [x]))
             (seen, out) items)
  = out ++ first_occurrences seen items.
Proof.
  revert seen out; induction items as [|x items IH]; intros seen out; simpl.
  - by rewrite app_nil_r.
  - destruct (bool_decide (x ∈ seen)); rewrite IH; [done|].
    by rewrite <- app_assoc.
Qed.

Lemma unique_first_occurrences (items : list str) :
  _unique_preserve_order items = first_occurrences ∅ items.
Proof. unfold _unique_preserve_order. by rewrite unique_fold. Qed.

Lemma first_occurrences_elem_of (items : list str) (seen : gset str) (x : str) :
  x ∈ first_occurrences seen items ↔ x ∈ items ∧ x ∉ seen.
Proof.
  revert seen; induction items as [|y items IH]; intros seen; simpl.
  - set_solver.
  - case_bool_decide as Hy.
    + rewrite IH. set_solver.
    + rewrite elem_of_cons, IH. destruct (decide (x = y)) as [->|Hxy]; set_solver.
Qed.

Lemma first_occurrences_NoDup (items : list str) (seen : gset str) :
  NoDup (first_occurrences seen items).
Proof.
  revert seen; induction items as [|y items IH]; intros seen; simpl.
  - constructor.
  - case_bool_decide as Hy; [apply IH|].
    constructor; [|apply IH]. rewrite first_occurrences_elem_of. set_solver.
Qed.

Lemma first_occurrences_app (p q : list str) (seen : gset str) :
  first_occurrences seen (p ++ q)
  = first_occurrences seen p ++ first_occurrences (list_to_set p ∪ seen) q.
Proof.
  revert seen; induction p as [|y p IH]; intros seen; simpl.
  - f_equal. set_solver.
  - case_bool_decide as Hy; rewrite IH.
    + f_equal. f_equal. set_solver.
    + simpl. f_equal. f_equal. f_equal. set_solver.
Qed.

(** A filter that ignores an item does not see whether it was seen. *)
Lemma first_occurrences_filter_seen (P : str → bool) (items : list str)
    (seen : gset str) (x : str) :
  P x = false →
  filter (λ y, P y = true) (first_occurrences ({[ x ]} ∪ seen) items)
  = filter (λ y, P y = true) (first_occurrences seen items).
Proof.
  intros Hx. revert seen; induction items as [|y items IH]; intros seen; simpl; [done|].
  destruct (decide (y = x)) as [->|Hyx].
  - rewrite bool_decide_eq_true_2 by set_solver.
    case_bool_decide as Hs; [done|].
    rewrite filter_cons_False by congruence.
    replace ({[x]} ∪ seen) with ({[x]} ∪ ({[x]} ∪ seen)) at 1 by set_solver.
    apply IH.
  - case_bool_decide as H1; case_bool_decide as H2; try set_solver.
    rewrite !filter_cons. destruct (decide (P y = true)).
    + f_equal. replace ({[y]} ∪ ({[x]} ∪ seen)) with ({[x]} ∪ ({[y]} ∪ seen)) by set_solver.
      apply IH.
    + replace ({[y]} ∪ ({[x]} ∪ seen)) with ({[x]} ∪ ({[y]} ∪ seen)) by set_solver.
      apply IH.
Qed.

Lemma first_occurrences_filter (P : str → bool) (items : list str) (seen : gset str) :
  first_occurrences seen (filter (λ y, P y = true) items)
  = filter (λ y, P y = true) (first_occurrences seen items).
Proof.
  revert seen; induction items as [|y items IH]; intros seen; [done|].
  rewrite filter_cons. destruct (decide (P y = true)) as [Hy|Hy]; simpl.
  - case_bool_decide; [apply IH|].
    rewrite filter_cons_True by done. f_equal. apply IH.
  - apply not_true_is_false in Hy. case_bool_decide; [apply IH|].
    rewrite filter_cons_False by congruence.
    rewrite first_occurrences_filter_seen by done. apply IH.
Qed.

Lemma unique_filter (P : str → bool) (items : list str) :
  _unique_preserve_order (filter (λ y, P y = true) items)
  = filter (λ y, P y = true) (_unique_preserve_order items).
Proof. rewrite !unique_first_occurrences. apply first_occurrences_filter. Qed.

(* ------------------------------------------------------------------ *)
(** ** Matching after a prefix *)

Section Matcher.
Variable U : ucd.
Variable t : str.

Lemma in_reach_refl (st : mstate) : in_reach t st st.
Proof. unfold in_reach. lia. Qed.

Lemma in_reach_trans (st1 st2 st3 : mstate) :
  in_reach t st1 st2 → in_reach t st2 st3 → in_reach t st1 st3.
Proof. unfold in_reach. lia. Qed.

Lemma local_none (m : mstate → (mstate → option mstate) → option mstate)
    (st : mstate) (k : mstate → option mstate) :
  local t m → (∀ st', in_reach t st st' → k st' = None) → m st k = None.
Proof. intros [Hext Hnone] Hk. rewrite <- (Hnone st). by apply Hext. Qed.

Lemma repeat_loop_local (body : mstate → (mstate → option mstate) → option mstate)
    (lo : nat) (k1 k2 : mstate → option mstate) (fuel count : nat) (st : mstate) :
  local t body → (∀ st', in_reach t st st' → k1 st' = k2 st') →
  repeat_loop body lo k1 fuel count st = repeat_loop body lo k2 fuel count st.
Proof.
  intros Hbody. revert count st; induction fuel as [|fuel IH]; intros count st Hk; simpl.
  - by rewrite (Hk st (in_reach_refl st)).
  - rewrite (Hk st (in_reach_refl st)).
    rewrite (proj1 Hbody st _
               (λ st', if (pos st' =? pos st)%nat then None
                       else repeat_loop body lo k2 fuel (S count) st')); [done|].
    intros st' Hst'. destruct (pos st' =? pos st)%nat; [done|].
    apply IH. intros st'' Hst''. apply Hk. by eapply in_reach_trans.
Qed.

Lemma repeat_loop_none (body : mstate → (mstate → option mstate) → option mstate)
    (lo fuel count : nat) (st : mstate) :
  local t body → repeat_loop body lo (λ _, None) fuel count st = None.
Proof.
  intros Hbody. revert count st; induction fuel as [|fuel IH]; intros count st; simpl.
  - by destruct (lo <=? count)%nat.
  - rewrite (local_none body); [by destruct (lo <=? count)%nat|done|].
    intros st' _. destruct (pos st' =? pos st)%nat; [done|apply IH].
Qed.

Lemma run_local (r : regex) : local t (run U r t).
Proof.
  induction r as [p|r1 IH1 r2 IH2|lo hi r IH|r IH|p|p|]; (split; [intros st k1 k2 Hk|intros st]);
    simpl.
  - destruct (holds p (char_at t (pos st))) eqn:Hp; [|done].
    apply Hk. unfold in_reach, char_at in *. simpl.
    destruct (t !! pos st) eqn:Hl; [|done]. apply lookup_lt_Some in Hl. lia.
  - by destruct (holds p (char_at t (pos st))).
  - apply (proj1 IH1). intros st' Hst'. apply (proj1 IH2). intros st'' Hst''.
    apply Hk. by eapply in_reach_trans.
  - rewrite (proj1 IH1 st _ (λ _, None)); [apply (proj2 IH1)|].
    intros st' _. apply (proj2 IH2).
  - by apply repeat_loop_local.
  - by apply repeat_loop_none.
  - apply (proj1 IH). intros st' Hst'. apply Hk. exact Hst'.
  - by apply (local_none _ _ _ IH).
  - destruct (holds p (char_before t (pos st))); [done|]. apply Hk, in_reach_refl.
  - by destruct (holds p (char_before t (pos st))).
  - destruct (holds p (char_at t (pos st))); [done|]. apply Hk, in_reach_refl.
  - by destruct (holds p (char_at t (pos st))).
  - destruct (xorb _ _); [|done]. apply Hk, in_reach_refl.
  - by destruct (xorb _ _).
Qed.

(** Fuel beyond the characters that remain changes nothing. *)
Lemma repeat_loop_fuel (body : mstate → (mstate → option mstate) → option mstate)
    (lo : nat) (k : mstate → option mstate) (f1 f2 count : nat) (st : mstate) :
  local t body → length t - pos st ≤ f1 → length t - pos st ≤ f2 →
  repeat_loop body lo k f1 count st = repeat_loop body lo k f2 count st.
Proof.
  intros Hbody. revert f2 count st; induction f1 as [|f1 IH]; intros [|f2] count st H1 H2;
    simpl; [done| | |].
  - rewrite (local_none body); [done..|].
    intros st' [Ha Hb]. destruct (Nat.eqb_spec (pos st') (pos st)); [done|lia].
  - rewrite (local_none body); [done..|].
    intros st' [Ha Hb]. destruct (Nat.eqb_spec (pos st') (pos st)); [done|lia].
  - rewrite (proj1 Hbody st _
               (λ st', if (pos st' =? pos st)%nat then None
                       else repeat_loop body lo k f2 (S count) st')); [done|].
    intros st' [Ha Hb]. destruct (Nat.eqb_spec (pos st') (pos st)); [done|].
    apply IH; lia.
Qed.

End Matcher.

Section Prefix.
Variable U : ucd.
Variable p : str.
Variable c : char.
Variable t : str.
Hypothesis p_last : last p = Some c.

Let n := length p.

Lemma char_at_shift (i : nat) : char_at (p ++ t) (n + i) = char_at t i.
Proof.
  unfold char_at, n. rewrite lookup_app_r by lia. f_equal. lia.
Qed.

Lemma char_before_shift (i : nat) :
  char_before (p ++ t) (n + i) = match i with O => Some c | S _ => char_before t i end.
Proof.
  unfold n. destruct i as [|i].
  - apply last_Some in p_last as [p' ->].
    rewrite Nat.add_0_r, length_app, Nat.add_1_r. simpl.
    rewrite <- app_assoc. apply list_lookup_middle. done.
  - rewrite Nat.add_succ_r. simpl. apply (char_at_shift i).
Qed.

Lemma holds_before_shift (q : char → bool) (i : nat) :
  q c = false → holds q (char_before (p ++ t) (n + i)) = holds q (char_before t i).
Proof.
  intros Hq. rewrite char_before_shift. destruct i; [simpl; by rewrite Hq|done].
Qed.

Lemma pos_shift_eqb (st st' : mstate) :
  (pos (shift n st') =? pos (shift n st))%nat = (pos st' =? pos st)%nat.
Proof.
  simpl. destruct (Nat.eqb_spec (pos st') (pos st)) as [->|Hne].
  - apply Nat.eqb_refl.
  - apply Nat.eqb_neq. lia.
Qed.

Lemma repeat_loop_shift (body body' : mstate → (mstate → option mstate) → option mstate)
    (lo : nat) (k k' : mstate → option mstate) (fuel count : nat) (st : mstate) :
  (∀ st k k', (∀ st', k' (shift n st') = shift n <$> k st') →
              body' (shift n st) k' = shift n <$> body st k) →
  (∀ st', k' (shift n st') = shift n <$> k st') →
  repeat_loop body' lo k' fuel count (shift n st)
  = shift n <$> repeat_loop body lo k fuel count st.
Proof.
  intros Hbody Hk. revert count st; induction fuel as [|fuel IH]; intros count st; simpl.
  - destruct (lo <=? count)%nat; [apply Hk|done].
  - rewrite (Hbody st (λ st', if (pos st' =? pos st)%nat then None
                              else repeat_loop body lo k fuel (S count) st')).
    + destruct (body st _); simpl; [done|].
      destruct (lo <=? count)%nat; [apply Hk|done].
    + intros st'. change (n + pos st)%nat with (pos (shift n st)).
      rewrite pos_shift_eqb. destruct (pos st' =? pos st)%nat; [done|apply IH].
Qed.

(** A match in [t] is the same match in [p ++ t], [n] characters on, when
    no look-behind of the pattern accepts the last character of [p]. *)
Lemma run_shift (r : regex) (st : mstate) (k k' : mstate → option mstate) :
  blind_to U c r = true →
  (∀ st', k' (shift n st') = shift n <$> k st') →
  run U r (p ++ t) (shift n st) k' = shift n <$> run U r t st k.
Proof.
  revert st k k'.
  induction r as [q|r1 IH1 r2 IH2|lo hi r IH|r IH|q|q|]; intros st k k' Hblind Hk; simpl in *.
  - rewrite char_at_shift. destruct (holds q (char_at t (pos st))); [|done].
    rewrite <- Nat.add_succ_r. apply (Hk (MState (S (pos st)) (caps st))).
  - apply andb_true_iff in Hblind as [H1 H2].
    apply IH1; [done|]. intros st'. by apply IH2.
  - assert (repeat_loop (run U r (p ++ t)) lo k'
              (match hi with Some h => h | None => length (p ++ t) end) 0 (shift n st)
            = repeat_loop (run U r (p ++ t)) lo k'
                (match hi with Some h => h | None => length t end) 0 (shift n st)) as ->.
    { destruct hi as [h|]; [done|].
      apply (repeat_loop_fuel (p ++ t)); [apply run_local|..];
        rewrite length_app; simpl; unfold n; lia. }
    apply repeat_loop_shift; [|done]. intros st0 k0 k0' Hk0. by apply IH.
  - apply IH; [done|]. intros st'. apply (Hk (MState (pos st') ((pos st, pos st') :: caps st'))).
  - apply negb_true_iff in Hblind. rewrite holds_before_shift by done.
    destruct (holds q (char_before t (pos st))); [done|apply Hk].
  - rewrite char_at_shift. destruct (holds q (char_at t (pos st))); [done|apply Hk].
  - apply negb_true_iff in Hblind. rewrite holds_before_shift, char_at_shift by done.
    destruct (xorb _ _); [apply Hk|done].
Qed.

Lemma match_at_shift (r : regex) (i : nat) :
  blind_to U c r = true →
  match_at U r (p ++ t) (n + i) = shift n <$> match_at U r t i.
Proof.
  intros Hblind. unfold match_at.
  apply (run_shift r (MState i []) Some Some); [done|]. by intros st'.
Qed.

Lemma scan_shift (r : regex) (fuel i : nat) :
  blind_to U c r = true →
  scan U r (p ++ t) fuel (n + i)
  = map (λ m, (n + fst m, shift n (snd m))) (scan U r t fuel i).
Proof.
  intros Hblind. revert i; induction fuel as [|fuel IH]; intros i; simpl; [done|].
  assert ((length (p ++ t) <? n + i)%nat = (length t <? i)%nat) as ->.
  { rewrite length_app. fold n. destruct (Nat.ltb_spec (length t) i).
    - apply Nat.ltb_lt. lia.
    - apply Nat.ltb_ge. lia. }
  destruct (length t <? i)%nat; [done|].
  rewrite match_at_shift by done. destruct (match_at U r t i) as [st|]; simpl.
  - f_equal.
    assert ((if (n + pos st =? n + i)%nat then S (n + i) else n + pos st)
            = n + (if (pos st =? i)%nat then S i else pos st)) as ->; [|apply IH].
    destruct (Nat.eqb_spec (pos st) i) as [->|Hne].
    + rewrite Nat.eqb_refl. lia.
    + rewrite (proj2 (Nat.eqb_neq _ _)); lia.
  - rewrite <- Nat.add_succ_r. apply IH.
Qed.

(** Where no match starts inside [p], the scan of [p ++ t] is the scan
    of [t]. *)
Lemma scan_skip (r : regex) (j fuel : nat) :
  (∀ i, i < n → match_at U r (p ++ t) i = None) → j ≤ n →
  scan U r (p ++ t) (j + fuel) (n - j) = scan U r (p ++ t) fuel n.
Proof.
  intros Hnone. induction j as [|j IH]; intros Hj.
  - by rewrite Nat.sub_0_r.
  - simpl. rewrite (proj2 (Nat.ltb_ge _ _)) by (rewrite length_app; fold n; lia).
    rewrite Hnone by lia. replace (S (n - S j)) with (n - j) by lia. apply IH. lia.
Qed.

Lemma matches_shift (r : regex) :
  blind_to U c r = true → (∀ i, i < n → match_at U r (p ++ t) i = None) →
  matches U r (p ++ t) = map (λ m, (n + fst m, shift n (snd m))) (matches U r t).
Proof.
  intros Hblind Hnone. unfold matches.
  rewrite <- (scan_shift r (S (length t)) 0) by done.
  rewrite Nat.add_0_r, <- (scan_skip r n (S (length t))) by done.
  rewrite Nat.sub_diag. f_equal. rewrite length_app. fold n. lia.
Qed.

Lemma slice_shift (i j : nat) : slice (p ++ t) (n + i) (n + j) = slice t i j.
Proof.
  unfold slice, n. rewrite drop_app_add. f_equal. lia.
Qed.

Lemma findall0_shift (r : regex) :
  blind_to U c r = true → (∀ i, i < n → match_at U r (p ++ t) i = None) →
  findall0 U r (p ++ t) = findall0 U r t.
Proof.
  intros Hblind Hnone. unfold findall0. rewrite matches_shift by done.
  rewrite map_map. apply map_ext. intros [i st]. simpl. apply slice_shift.
Qed.

Lemma findall2_shift (r : regex) :
  blind_to U c r = true → (∀ i, i < n → match_at U r (p ++ t) i = None) →
  findall2 U r (p ++ t) = findall2 U r t.
Proof.
  intros Hblind Hnone. unfold findall2. rewrite matches_shift by done.
  induction (matches U r t) as [|[i st] ms IH]; [done|].
  rewrite map_cons. cbn [omap list_omap]. rewrite IH. cbn [snd shift caps].
  destruct (caps st) as [|[i2 j2] [|[i1 j1] [|? ?]]]; cbn [map fst snd]; try done.
  by rewrite !slice_shift.
Qed.

End Prefix.

(* ------------------------------------------------------------------ *)
(** ** Variants and the fact index *)

Lemma variants_unparsed (U : ucd) (n : str) :
  Float.of_str U n = None → _variants U n = Ok {[ n ]}.
Proof. unfold _variants. by intros ->. Qed.

Lemma variants_self (U : ucd) (n : str) (vs : gset str) :
  _variants U n = Ok vs → n ∈ vs.
Proof.
  unfold _variants. destruct (Float.of_str U n) as [f|].
  - destruct (Float.round0 f) as [i|]; simpl; [|done].
    destruct (Float.round_nd f 1) as [r1|]; simpl; [|done].
    destruct (Float.round_nd f 2) as [r2|]; simpl; [|done].
    intros [= <-]. destruct (_ && _); set_solver.
  - intros [= <-]. set_solver.
Qed.

(** The form without trailing zeros is a variant of a parsed string. *)
Lemma variants_trimmed (U : ucd) (n : str) (f : Float.float) (vs : gset str) :
  _variants U n = Ok vs → Float.of_str U n = Some f → N_of_ascii "." ∈ n →
  truthy (rstrip "." (rstrip "0" n)) = true →
  rstrip "." (rstrip "0" n) ∈ vs.
Proof.
  unfold _variants. intros Hvs Hf Hdot Htr. rewrite Hf in Hvs.
  destruct (Float.round0 f) as [i|]; simpl in Hvs; [|done].
  destruct (Float.round_nd f 1) as [r1|]; simpl in Hvs; [|done].
  destruct (Float.round_nd f 2) as [r2|]; simpl in Hvs; [|done].
  injection Hvs as <-. rewrite Htr, bool_decide_eq_true_2 by done. simpl. set_solver.
Qed.

(** The loop over the tokens of the facts returns when the variants of
    every token do, and then returns their union with the initial bag. *)
Lemma index_tokens_ok (U : ucd) (toks : list str) (bag S : gset str) :
  for_each (index_token U) toks bag = Ok S ↔
  (∀ t, t ∈ toks → ∃ vs, _variants U (_normalize_number_token t) = Ok vs) ∧
  (∀ x, x ∈ S ↔ x ∈ bag ∨
      ∃ t vs, t ∈ toks ∧ _variants U (_normalize_number_token t) = Ok vs ∧ x ∈ vs).
Proof.
  revert bag; induction toks as [|t toks IH]; intros bag.
  - rewrite for_each_nil. split.
    + intros [= <-]. split; [set_solver|]. intros x. split; [tauto|].
      intros [?|(t & vs & Ht & _)]; [done|]. by apply elem_of_nil in Ht.
    + intros [_ HS]. f_equal. apply set_eq. intros x. rewrite HS. split; [tauto|].
      intros [?|(t & vs & Ht & _)]; [done|]. by apply elem_of_nil in Ht.
  - rewrite for_each_cons.
    assert (index_token U bag t
            = vs ← _variants U (_normalize_number_token t); Ok (bag ∪ vs)) as -> by done.
    destruct (_variants U (_normalize_number_token t)) as [vs|e] eqn:Ev; simpl.
    + rewrite IH. split.
      * intros [Hall HS]. split.
        -- intros t' [->|Ht']%elem_of_cons; eauto.
        -- intros x. rewrite HS, elem_of_union. split.
           ++ intros [[?|?]|(t' & vs' & Ht' & Ev' & Hx)]; [tauto| |].
              ** right. exists t, vs. split; [left|done].
              ** right. exists t', vs'. split; [by right|done].
           ++ intros [?|(t' & vs' & [->|Ht']%elem_of_cons & Ev' & Hx)]; [tauto| |].
              ** rewrite Ev in Ev'. injection Ev' as <-. tauto.
              ** right. eauto.
      * intros [Hall HS]. split.
        -- intros t' Ht'. apply Hall. by right.
        -- intros x. rewrite HS, elem_of_union. split.
           ++ intros [?|(t' & vs' & [->|Ht']%elem_of_cons & Ev' & Hx)]; [tauto| |].
              ** rewrite Ev in Ev'. injection Ev' as <-. tauto.
              ** right. eauto.
           ++ intros [[?|?]|(t' & vs' & Ht' & Ev' & Hx)]; [tauto| |].
              ** right. exists t, vs. split; [left|done].
              ** right. exists t', vs'. split; [by right|done].
    + split; [done|]. intros [Hall _].
      destruct (Hall t) as [vs Hvs]; [left|]. congruence.
Qed.

Lemma index_tokens_mono (U : ucd) (toks : list str) (bag S : gset str) :
  for_each (index_token U) toks bag = Ok S → bag ⊆ S.
Proof. intros [_ HS]%index_tokens_ok x Hx. apply HS. by left. Qed.

(** The index is one loop over every token of every value. *)
Lemma index_fact_tokens (U : ucd) (bag : gset str) (f : fact) :
  index_fact U bag f = for_each (index_token U) (tokens_of U (value_text f)) bag.
Proof. unfold index_fact, tokens_of. by rewrite for_each_app. Qed.

Lemma index_all_tokens (U : ucd) (facts : list fact) :
  _index_fact_numbers U (Some facts)
  = for_each (index_token U) (flat_map (λ f, tokens_of U (value_text f)) facts) ∅.
Proof.
  unfold _index_fact_numbers. simpl. rewrite <- for_each_flat.
  apply for_each_ext. intros b f. apply index_fact_tokens.
Qed.

Lemma common_variant (x : str) (vs idx : gset str) :
  x ∈ vs → x ∈ idx → vs ∩ idx = ∅ → False.
Proof. set_solver. Qed.

Lemma elem_of_flat_map {A B : Type} (f : A → list B) (l : list A) (y : B) :
  y ∈ flat_map f l ↔ ∃ x, x ∈ l ∧ y ∈ f x.
Proof.
  rewrite list_elem_of_In, in_flat_map. split; intros (x & Hx & Hy); exists x.
  - by rewrite !list_elem_of_In.
  - by rewrite <- !list_elem_of_In.
Qed.

(** The index holds every token of every value, when it is built. *)
Lemma index_holds_token (U : ucd) (facts : list fact) (idx : gset str) (f : fact) (t : str) :
  _index_fact_numbers U (Some facts) = Ok idx → f ∈ facts →
  t ∈ tokens_of U (value_text f) → _normalize_number_token t ∈ idx.
Proof.
  rewrite index_all_tokens. intros [Hall Hidx]%index_tokens_ok Hf Ht.
  assert (t ∈ flat_map (λ f, tokens_of U (value_text f)) facts) as Hin.
  { apply elem_of_flat_map. eauto. }
  destruct (Hall t Hin) as [vs Hvs]. apply Hidx. right. exists t, vs.
  repeat split; [done..|]. by apply variants_self in Hvs.
Qed.

(** The index of two fact lists with the same values is the same. *)
Lemma index_same_values (U : ucd) (F G : list fact) (S : gset str) :
  (∀ v, v ∈ map value_text F ↔ v ∈ map value_text G) →
  _index_fact_numbers U (Some F) = Ok S → _index_fact_numbers U (Some G) = Ok S.
Proof.
  intros Hsame. rewrite !index_all_tokens, !index_tokens_ok.
  assert (∀ A B, (∀ v, v ∈ map value_text A ↔ v ∈ map value_text B) →
            ∀ t, t ∈ flat_map (λ f, tokens_of U (value_text f)) A →
                 t ∈ flat_map (λ f, tokens_of U (value_text f)) B) as Hsub.
  { intros A B HAB t (a & Ha & Ht)%elem_of_flat_map.
    assert (value_text a ∈ map value_text B) as (b & Hab & Hb)%list_elem_of_fmap.
    { apply HAB, list_elem_of_fmap. eauto. }
    apply elem_of_flat_map. exists b. split; [done|]. by rewrite <- Hab. }
  assert (∀ v, v ∈ map value_text G ↔ v ∈ map value_text F) as Hsame'
    by (intros v; symmetry; apply Hsame).
  pose proof (Hsub F G Hsame) as HFG. pose proof (Hsub G F Hsame') as HGF.
  intros [Hall HS]. split; [auto|].
  intros x. rewrite HS. split; (intros [?|(t & vs & Ht & Hvs & Hx)]; [by left|right]);
    exists t, vs; auto.
Qed.

(* ------------------------------------------------------------------ *)
(** ** The comparator *)

Lemma check_part_with (U : ucd) (idx : gset str) :
  check_part U idx = check_with skip_part U idx.
Proof. reflexivity. Qed.

Lemma check_token_with (U : ucd) (idx : gset str) :
  check_token U idx = check_with skip_token U idx.
Proof. reflexivity. Qed.

Lemma check_with_step (skip : str → bool) (U : ucd) (idx : gset str)
    (m0 : list str) (t : str) :
  check_with skip U idx m0 t
  = if skip t then Ok m0
    else match _variants U (_normalize_number_token t) with
         | Ok vs => Ok (if bool_decide (vs ∩ idx = ∅) then m0 ++ [t] else m0)
         | Raise e => Raise e
         end.
Proof.
  unfold check_with, ungrounded. destruct (skip t); [done|].
  by destruct (_variants U (_normalize_number_token t)).
Qed.

(** A loop over the body returns when the variants of every token that is
    not allow-listed do, and then it has appended the reported tokens. *)
Lemma check_loop_ok (skip : str → bool) (U : ucd) (idx : gset str)
    (toks m0 m : list str) :
  for_each (check_with skip U idx) toks m0 = Ok m ↔
  (∀ t, t ∈ toks → skip t = false →
        ∃ vs, _variants U (_normalize_number_token t) = Ok vs) ∧
  m = m0 ++ filter (λ t, reported skip U idx t = true) toks.
Proof.
  revert m0; induction toks as [|t toks IH]; intros m0.
  - rewrite for_each_nil, app_nil_r. split.
    + intros [= <-]. split; [|done]. intros t Ht. by apply elem_of_nil in Ht.
    + by intros [_ ->].
  - rewrite for_each_cons, check_with_step. unfold reported, stays_flagged.
    rewrite filter_cons.
    destruct (skip t) eqn:Hs; simpl.
    + rewrite IH. split; intros [Hall ->]; (split; [|done]).
      * intros t' [->|Ht']%elem_of_cons Hs'; [congruence|auto].
      * intros t' Ht'. apply Hall. by right.
    + destruct (_variants U (_normalize_number_token t)) as [vs|e] eqn:Ev; simpl.
      * destruct (bool_decide (vs ∩ idx = ∅)) eqn:Hd; simpl.
        -- rewrite IH, <- app_assoc. simpl.
           split; intros [Hall ->]; (split; [|done]).
           ++ intros t' [->|Ht']%elem_of_cons Hs'; eauto.
           ++ intros t' Ht'. apply Hall. by right.
        -- rewrite IH.
           split; intros [Hall ->]; (split; [|done]).
           ++ intros t' [->|Ht']%elem_of_cons Hs'; eauto.
           ++ intros t' Ht'. apply Hall. by right.
      * split; [done|]. intros [Hall _].
        destruct (Hall t) as [vs Hvs]; [left|done|congruence].
Qed.

(** The tokens the two loops over the body visit. *)
Lemma flagged_ok (U : ucd) (body : option str) (facts : option (list fact))
    (m : list str) :
  flagged U body facts = Ok m ↔
  ∃ idx, _index_fact_numbers U facts = Ok idx ∧
    (∀ t, t ∈ score_parts (scorelines_from_text U (Some (or_empty body))) →
          skip_part t = false → ∃ vs, _variants U (_normalize_number_token t) = Ok vs) ∧
    (∀ t, t ∈ numbers_from_text U (Some (or_empty body)) →
          skip_token t = false → ∃ vs, _variants U (_normalize_number_token t) = Ok vs) ∧
    m = filter (λ t, reported skip_part U idx t = true)
          (score_parts (scorelines_from_text U (Some (or_empty body))))
        ++ filter (λ t, reported skip_token U idx t = true)
             (numbers_from_text U (Some (or_empty body))).
Proof.
  unfold flagged.
  set (parts := score_parts _). set (toks := numbers_from_text _ _).
  destruct (_index_fact_numbers U facts) as [idx|e]; simpl.
  - rewrite check_part_with, check_token_with.
    destruct (for_each (check_with skip_part U idx) parts []) as [m1|e] eqn:E1; simpl.
    + apply check_loop_ok in E1 as [Hp ->]. simpl. rewrite check_loop_ok.
      split.
      * intros [Ht ->]. exists idx. done.
      * intros (idx' & [= <-] & _ & Ht & ->). done.
    + split; [done|]. intros (idx' & [= <-] & Hp & _ & _).
      assert (for_each (check_with skip_part U idx) parts []
              = Ok ([] ++ filter (λ t, reported skip_part U idx t = true) parts)) as E
        by (by apply check_loop_ok).
      congruence.
  - split; [done|]. by intros (idx' & [=] & _).
Qed.

(** A flagged token is not allow-listed and no variant of it is in the
    index. *)
Lemma flagged_elem (U : ucd) (body : option str) (facts : option (list fact))
    (m : list str) (x : str) :
  flagged U body facts = Ok m → x ∈ m →
  ∃ idx vs, _index_fact_numbers U facts = Ok idx ∧
    (_normalize_number_token x ∉ ALLOW) ∧
    _variants U (_normalize_number_token x) = Ok vs ∧ (vs ∩ idx = ∅).
Proof.
  intros (idx & Hidx & _ & _ & ->)%flagged_ok Hx.
  assert (∃ skip, reported skip U idx x = true ∧
            (skip x = false → _normalize_number_token x ∉ ALLOW)) as (skip & Hr & Hskip).
  { apply elem_of_app in Hx as [[Hr _]%list_elem_of_filter|[Hr _]%list_elem_of_filter].
    - exists skip_part. split; [done|]. unfold skip_part. by intros ?%bool_decide_eq_false.
    - exists skip_token. split; [done|]. unfold skip_token.
      intros [?%bool_decide_eq_false _]%orb_false_iff. done. }
  unfold reported, stays_flagged in Hr. apply andb_true_iff in Hr as [Hs Hf].
  apply negb_true_iff in Hs.
  destruct (_variants U (_normalize_number_token x)) as [vs|] eqn:Ev; [|done].
  exists idx, vs. repeat split; auto. by apply bool_decide_eq_true in Hf.
Qed.

Lemma find_ungrounded_ok (U : ucd) (body : option str) (facts : option (list fact))
    (r : list str) :
  find_ungrounded U body facts = Ok r ↔
  ∃ m, flagged U body facts = Ok m ∧ r = _unique_preserve_order m.
Proof.
  unfold find_ungrounded, assert_numbers_in_facts.
  destruct (flagged U body facts) as [m|e]; simpl.
  - split; [intros [= <-]; eauto | intros (m' & [= <-] & ->); done].
  - split; [done | intros (m' & [=] & _)].
Qed.

(* ------------------------------------------------------------------ *)
(** ** The claims of the specification *)

(** Decide a closed proposition by evaluation. *)
Ltac by_evaluation :=
  lazymatch goal with
  | |- ¬ ?P => apply (bool_decide_eq_false_1 P); vm_compute; reflexivity
  | |- ?P => apply (bool_decide_eq_true_1 P); vm_compute; reflexivity
  end.

(** C1, as the code has it: with the facts holding only "3-1", the body
    "2-0" is not grounded by the fact; its "2" is not flagged, being in the
    allow-list, but "0" is not in the allow-list and is flagged, so the
    result is not empty.  For the body "7-4" both "7" and "4" are flagged. *)
Theorem C1_unrelated_scoreline (U : ucd) :
  lit "2" ∈ ALLOW ∧ (lit "0" ∉ ALLOW) ∧
  (∃ r, find_ungrounded U (Some (lit "2-0")) (Some [fact_of "3-1"]) = Ok r
        ∧ lit "0" ∈ r ∧ lit "2" ∉ r) ∧
  (∃ r, find_ungrounded U (Some (lit "7-4")) (Some [fact_of "3-1"]) = Ok r
        ∧ lit "7" ∈ r ∧ lit "4" ∈ r).
Proof.
  split; [by_evaluation|]. split; [by_evaluation|]. split.
  - exists [lit "0"; lit "-0"]. split; [vm_compute; reflexivity|].
    split; by_evaluation.
  - exists [lit "7"; lit "4"; lit "-4"]. split; [vm_compute; reflexivity|].
    split; by_evaluation.
Qed.

(** C1 as stated fails: the result for the body "2-0" is not empty,
    because "0" is not in the allow-list. *)
Lemma C1_body_2_0_is_not_empty :
  find_ungrounded ascii_ucd (Some (lit "2-0")) (Some [fact_of "3-1"])
    = Ok [lit "0"; lit "-0"]
  ∧ bool_decide (lit "0" ∈ ALLOW) = false.
Proof. split; vm_compute; reflexivity. Qed.

(** C2 at the text "3-1": the pass for plain numbers captures the left
    digit, and the right digit with the hyphen as its sign; the index of
    the fact "3-1" holds "-1", which the scoreline pass alone does not
    contribute. *)
Theorem C2_scoreline_digits_recaptured (U : ucd) :
  scorelines_from_text U (Some (lit "3-1")) = [(lit "3", lit "1")] ∧
  numbers_from_text U (Some (lit "3-1")) = [lit "3"; lit "-1"] ∧
  (∃ s, for_each (index_token U)
          (score_parts (scorelines_from_text U (Some (lit "3-1")))) ∅ = Ok s
        ∧ lit "-1" ∉ s) ∧
  (∃ idx, _index_fact_numbers U (Some [fact_of "3-1"]) = Ok idx ∧ lit "-1" ∈ idx).
Proof.
  split; [vm_compute; reflexivity|]. split; [vm_compute; reflexivity|]. split.
  - exists (list_to_set (map lit ["3"; "3.0"; "3.00"; "1"; "1.0"; "1.00"]%string)).
    split; [vm_compute; reflexivity | by_evaluation].
  - exists (list_to_set (map lit ["3"; "3.0"; "3.00"; "1"; "1.0"; "1.00";
                                   "-1"; "-1.0"; "-1.00"]%string)).
    split; [vm_compute; reflexivity | by_evaluation].
Qed.

(** C3 at the strings "inf" and "nan", and at a run of 309 digits: the
    string parses as a float, and rounding it to an integer raises. *)
Theorem C3_variants_raises (U : ucd) :
  _variants U (lit "inf") = Raise OverflowError ∧
  _variants U (lit "nan") = Raise ValueError ∧
  _variants U nines = Raise OverflowError.
Proof. repeat split; vm_compute; reflexivity. Qed.

Lemma find_ungrounded_none_body (U : ucd) (facts : option (list fact)) :
  find_ungrounded U None facts = find_ungrounded U (Some []) facts.
Proof. reflexivity. Qed.

Lemma find_ungrounded_none_facts (U : ucd) (body : option str) :
  find_ungrounded U body None = find_ungrounded U body (Some []).
Proof. reflexivity. Qed.

Lemma find_ungrounded_none_none (U : ucd) : find_ungrounded U None None = Ok [].
Proof. reflexivity. Qed.

(** C4 at a body whose scoreline has a half of 309 digits: the call
    raises OverflowError. *)
Theorem C4_raises_on_long_digit_run (U : ucd) :
  find_ungrounded U (Some (lit "1-" ++ nines)) None = Raise OverflowError.
Proof. vm_compute; reflexivity. Qed.

(** No number and no scoreline starts inside "The stat was ". *)
Lemma no_number_in_the_stat_was (U : ucd) (v : str) (i : nat) :
  i < length the_stat_was → match_at U (_NUM_RE U) (the_stat_was ++ v) i = None.
Proof.
  intros Hi. do 13 (destruct i as [|i]; [vm_compute; reflexivity|]).
  simpl in Hi. lia.
Qed.

Lemma no_score_in_the_stat_was (U : ucd) (v : str) (i : nat) :
  i < length the_stat_was → match_at U (_SCORE_RE U) (the_stat_was ++ v) i = None.
Proof.
  intros Hi. do 13 (destruct i as [|i]; [vm_compute; reflexivity|]).
  simpl in Hi. lia.
Qed.

(** The tokens of the body "The stat was " + v are the tokens of v. *)
Lemma tokens_after_the_stat_was (U : ucd) (v : str) :
  numbers_from_text U (Some (the_stat_was ++ v)) = numbers_from_text U (Some v) ∧
  scorelines_from_text U (Some (the_stat_was ++ v)) = scorelines_from_text U (Some v).
Proof.
  unfold numbers_from_text, scorelines_from_text. simpl. split.
  - apply (findall0_shift U the_stat_was 32%N v); [done..|].
    apply no_number_in_the_stat_was.
  - apply (findall2_shift U the_stat_was 32%N v); [done..|].
    apply no_score_in_the_stat_was.
Qed.

(** X1: The grounded round trip, whenever the call returns: with a fact of
    value [v] among the facts, the body "The stat was " + v has no
    ungrounded token. *)
Theorem round_trip_when_returned (U : ucd) (v : str) (facts : list fact) (f : fact)
    (r : list str) :
  f ∈ facts → value f = Some v →
  find_ungrounded U (Some (the_stat_was ++ v)) (Some facts) = Ok r → r = [].
Proof.
  intros Hf Hv (m & Hm & ->)%find_ungrounded_ok.
  assert (m = []) as ->; [|done].
  destruct m as [|x m]; [done|]. exfalso.
  destruct (flagged_elem U _ _ _ x Hm) as (idx & vs & Hidx & _ & Hvs & Hdis); [left|].
  apply flagged_ok in Hm as (idx' & Hidx' & _ & _ & Hm).
  assert (x ∈ tokens_of U (value_text f)) as Hx.
  { unfold value_text, tokens_of. rewrite Hv.
    change (or_empty (Some (the_stat_was ++ v))) with (the_stat_was ++ v) in Hm.
    change (or_empty (Some v)) with v.
    destruct (tokens_after_the_stat_was U v) as [Hn Hs]. rewrite Hn, Hs in Hm.
    assert (x ∈ x :: m) as Hin by left. rewrite Hm in Hin.
    apply elem_of_app in Hin.
    apply elem_of_app. rewrite !list_elem_of_filter in Hin. tauto. }
  apply (common_variant (_normalize_number_token x) vs idx); [| |done].
  - by apply variants_self in Hvs.
  - by apply (index_holds_token U facts idx f).
Qed.

Lemma round_trip_when_returned_witness : @nil (list N) = [].
Proof.
  apply (round_trip_when_returned ascii_ucd (lit "3-1 after 1,234 shots (28%)")
           [fact_of "90"; fact_of "3-1 after 1,234 shots (28%)"]
           (fact_of "3-1 after 1,234 shots (28%)")).
  - right; left.
  - reflexivity.
  - vm_compute; reflexivity.
Defined.

(** C5 at the value "1-" followed by 309 nines: the call on the body
    "The stat was " + v, with a fact of value v, raises OverflowError. *)
Theorem C5_round_trip_raises (U : ucd) :
  let v := lit "1-" ++ nines in
  find_ungrounded U (Some (lit "The stat was " ++ v))
    (Some [Fact (lit "score") (Some v) (lit "view")]) = Raise OverflowError.
Proof. vm_compute; reflexivity. Qed.

(** C6: with a fact of value "1.8" among the facts, the tokens "1.80",
    "2" and "1.8%" are never in the result, whatever the body. *)
Theorem C6_tolerant_rounding (U : ucd) (body : option str) (facts : list fact)
    (f : fact) (res : list str) :
  f ∈ facts → value f = Some (lit "1.8") →
  find_ungrounded U body (Some facts) = Ok res →
  (lit "1.80" ∉ res) ∧ (lit "2" ∉ res) ∧ (lit "1.8%" ∉ res).
Proof.
  intros Hf Hv (m & Hm & ->)%find_ungrounded_ok.
  assert (∀ x, x ∈ _unique_preserve_order m →
               ∃ idx vs, lit "1.8" ∈ idx ∧ (_normalize_number_token x ∉ ALLOW) ∧
                 _variants U (_normalize_number_token x) = Ok vs ∧ (vs ∩ idx = ∅)) as Hflag.
  { intros x Hx. rewrite unique_first_occurrences in Hx.
    apply first_occurrences_elem_of in Hx as [Hx _].
    destruct (flagged_elem _ _ _ _ _ Hm Hx) as (idx & vs & Hidx & Hallow & Hvs & Hdis).
    exists idx, vs. repeat split; [|done..].
    change (lit "1.8") with (_normalize_number_token (lit "1.8")).
    apply (index_holds_token U facts idx f); [done..|].
    unfold value_text. rewrite Hv. by_evaluation. }
  repeat split; intros Hx; destruct (Hflag _ Hx) as (idx & vs & Hidx & Hallow & Hvs & Hdis).
  - apply (common_variant (lit "1.8") vs idx); [|done..].
    change (lit "1.8") with (rstrip "." (rstrip "0" (_normalize_number_token (lit "1.80")))).
    eapply variants_trimmed; [done|vm_compute; reflexivity|by_evaluation|reflexivity].
  - apply Hallow. by_evaluation.
  - apply (common_variant (lit "1.8") vs idx); [|done..].
    by apply variants_self in Hvs.
Qed.

Lemma C6_tolerant_rounding_witness :
  (lit "1.80" ∉ [lit "47"]) ∧ (lit "2" ∉ [lit "47"]) ∧ (lit "1.8%" ∉ [lit "47"]).
Proof.
  apply (C6_tolerant_rounding ascii_ucd (Some (lit "1.80, about 2, or 1.8% of 47"))
           [fact_of "90"; fact_of "1.8"] (fact_of "1.8")).
  - right; left.
  - reflexivity.
  - vm_compute; reflexivity.
Defined.

(** C7, as the code has it: the result is the input with every comma
    removed and then every trailing percent sign stripped, nothing else
    changed; it holds no comma and does not end in a percent sign; and
    normalizing it again returns it unchanged. *)
Theorem C7_normalize (tok : str) :
  (∃ k, remove_char "," tok
        = _normalize_number_token tok ++ replicate k (N_of_ascii "%")) ∧
  (∀ c, c ∈ remove_char "," tok ↔ c ∈ tok ∧ c ≠ N_of_ascii ",") ∧
  (N_of_ascii "," ∉ _normalize_number_token tok) ∧
  (last (_normalize_number_token tok) ≠ Some (N_of_ascii "%")) ∧
  _normalize_number_token (_normalize_number_token tok) = _normalize_number_token tok.
Proof.
  split; [apply rstrip_spec|]. split.
  { intros c. unfold remove_char. rewrite list_elem_of_filter. tauto. }
  split; [apply normalize_no_comma|]. split; [apply rstrip_last|apply normalize_idemp].
Qed.

(** C7 as stated fails: of two trailing percent signs the code strips
    both, where the specification strips one. *)
Lemma C7_two_percent_signs :
  _normalize_number_token (lit "5%%") = lit "5" ∧ normalize_spec (lit "5%%") = lit "5%".
Proof. split; vm_compute; reflexivity. Qed.

(** C8: the body "47, 47, and 99" with no facts gives ["47", "99"]; and
    every result is without duplicates, holds exactly the flagged
    tokens, and holds them in the order of their first flagging: the
    tokens before a token [x] in the result are those flagged before the
    first flagging of [x]. *)
Theorem C8_order_and_dedup (U : ucd) :
  find_ungrounded U (Some (lit "47, 47, and 99")) (Some []) = Ok [lit "47"; lit "99"] ∧
  ∀ body facts res, find_ungrounded U body facts = Ok res →
    NoDup res ∧
    ∃ missing, flagged U body facts = Ok missing ∧
      (∀ x, x ∈ res ↔ x ∈ missing) ∧
      (∀ p x s, missing = p ++ x :: s → x ∉ p →
         ∃ r1 r2, res = r1 ++ x :: r2 ∧ ∀ y, y ∈ r1 ↔ y ∈ p).
Proof.
  split; [vm_compute; reflexivity|].
  intros body facts res (m & Hm & ->)%find_ungrounded_ok.
  rewrite unique_first_occurrences. split; [apply first_occurrences_NoDup|].
  exists m. split; [done|]. split.
  - intros x. rewrite first_occurrences_elem_of. set_solver.
  - intros p x s -> Hx. rewrite first_occurrences_app. simpl.
    rewrite bool_decide_eq_false_2 by set_solver.
    eexists _, _. split; [reflexivity|].
    intros y. rewrite first_occurrences_elem_of. set_solver.
Qed.

Lemma C8_order_and_dedup_witness : NoDup [lit "47"; lit "99"].
Proof.
  apply (proj2 (C8_order_and_dedup ascii_ucd) (Some (lit "47, 47, and 99")) (Some [])).
  vm_compute; reflexivity.
Defined.

(** C9: two fact lists with the same values (in any order and number,
    under any labels and sources) give the same output list for every
    body, and the call returns on the one when it returns on the other. *)
Theorem C9_only_values_matter (U : ucd) (body : option str) (F G : list fact) :
  (∀ v, v ∈ map value_text F ↔ v ∈ map value_text G) →
  returned (find_ungrounded U body (Some F)) = returned (find_ungrounded U body (Some G)).
Proof.
  intros Hsame.
  assert (∀ v, v ∈ map value_text G ↔ v ∈ map value_text F) as Hsame'
    by (intros v; symmetry; apply Hsame).
  unfold find_ungrounded, assert_numbers_in_facts, flagged.
  destruct (_index_fact_numbers U (Some F)) as [S|e] eqn:EF.
  - by rewrite (index_same_values U F G S Hsame EF).
  - destruct (_index_fact_numbers U (Some G)) as [S|e'] eqn:EG; [|done].
    by rewrite (index_same_values U G F S Hsame' EG) in EF.
Qed.

Lemma C9_only_values_matter_witness :
  returned (find_ungrounded ascii_ucd (Some (lit "A 3-1 win, 1.8 xG, 47 shots"))
              (Some [Fact (lit "score") (Some (lit "3-1")) (lit "a");
                     Fact (lit "xG") (Some (lit "1.8")) (lit "b")]))
  = returned (find_ungrounded ascii_ucd (Some (lit "A 3-1 win, 1.8 xG, 47 shots"))
                (Some [Fact (lit "x") (Some (lit "1.8")) (lit "y");
                       Fact (lit "z") (Some (lit "3-1")) (lit "w");
                       Fact (lit "again") (Some (lit "1.8")) (lit "y")])).
Proof.
  apply C9_only_values_matter.
  intros v. cbn [map value_text value or_empty default].
  rewrite !elem_of_cons, !elem_of_nil. tauto.
Defined.

(** C10: what is flagged with the facts F and G together is flagged with
    F alone, in the same relative order: the result with F ++ G is a
    sublist of the result with F, which exists. *)
Theorem C10_more_facts_flag_less (U : ucd) (body : option str) (F G : list fact)
    (r' : list str) :
  find_ungrounded U body (Some (F ++ G)) = Ok r' →
  ∃ r, find_ungrounded U body (Some F) = Ok r ∧ r' `sublist_of` r.
Proof.
  intros (m' & (S' & HS' & Hparts & Htoks & ->)%flagged_ok & ->)%find_ungrounded_ok.
  rewrite index_all_tokens, flat_map_app, for_each_app in HS'.
  destruct (for_each (index_token U) (flat_map (λ f, tokens_of U (value_text f)) F) ∅)
    as [S|e] eqn:HS; [|done].
  simpl in HS'. apply index_tokens_mono in HS' as Hsub.
  rewrite <- index_all_tokens in HS.
  set (parts := score_parts (scorelines_from_text U (Some (or_empty body)))) in *.
  set (toks := numbers_from_text U (Some (or_empty body))) in *.
  exists (_unique_preserve_order
            (filter (λ t, reported skip_part U S t = true) parts
             ++ filter (λ t, reported skip_token U S t = true) toks)).
  split.
  - apply find_ungrounded_ok. eexists. split; [|reflexivity].
    apply flagged_ok. exists S. done.
  - assert (∀ skip t, reported skip U S' t = true
                      ↔ stays_flagged U S' t = true ∧ reported skip U S t = true) as Hrep.
    { intros skip t. unfold reported, stays_flagged. rewrite !andb_true_iff.
      destruct (_variants U (_normalize_number_token t)) as [vs|]; [|intuition congruence].
      rewrite !bool_decide_eq_true. set_solver. }
    assert (∀ skip (l : list str), filter (λ t, reported skip U S' t = true) l
                      = filter (λ t, stays_flagged U S' t = true)
                          (filter (λ t, reported skip U S t = true) l)) as Hfil.
    { intros skip l. rewrite list_filter_filter. apply list_filter_iff, Hrep. }
    rewrite !Hfil, <- filter_app, unique_filter. apply sublist_filter.
Qed.

Lemma C10_more_facts_flag_less_witness :
  ∃ r, find_ungrounded ascii_ucd (Some (lit "47 and 99 and 1.8")) (Some [fact_of "1.8"]) = Ok r
       ∧ [lit "99"] `sublist_of` r.
Proof.
  apply (C10_more_facts_flag_less ascii_ucd (Some (lit "47 and 99 and 1.8"))
           [fact_of "1.8"] [fact_of "47"]).
  vm_compute; reflexivity.
Defined.

(* ------------------------------------------------------------------ *)
(** ** Further properties of app/guards.py *)

(** The loop over the tokens of the facts returns as soon as the variants
    of every token do. *)
Lemma index_tokens_returns (U : ucd) (toks : list str) (bag : gset str) :
  (∀ t, t ∈ toks → ∃ vs, _variants U (_normalize_number_token t) = Ok vs) →
  ∃ S, for_each (index_token U) toks bag = Ok S.
Proof.
  revert bag; induction toks as [|t toks IH]; intros bag Hall.
  - by exists bag.
  - rewrite for_each_cons.
    destruct (Hall t) as [vs Hvs]; [left|].
    assert (index_token U bag t = Ok (bag ∪ vs)) as -> by (unfold index_token; by rewrite Hvs).
    simpl. apply IH. intros t' Ht'. apply Hall. by right.
Qed.

Lemma index_none (U : ucd) : _index_fact_numbers U None = _index_fact_numbers U (Some []).
Proof. reflexivity. Qed.

(** A string of the result is a token of the body of which no variant
    is in the index of the facts. *)
Lemma result_elem (U : ucd) (body : option str) (facts : option (list fact))
    (res : list str) (x : str) :
  find_ungrounded U body facts = Ok res → x ∈ res →
  ∃ idx vs, _index_fact_numbers U facts = Ok idx ∧
    (_normalize_number_token x ∉ ALLOW) ∧
    _variants U (_normalize_number_token x) = Ok vs ∧ (vs ∩ idx = ∅) ∧
    (x ∈ score_parts (scorelines_from_text U body) ∨ x ∈ numbers_from_text U body).
Proof.
  intros (m & Hm & ->)%find_ungrounded_ok Hx.
  rewrite unique_first_occurrences, first_occurrences_elem_of in Hx. destruct Hx as [Hx _].
  destruct (flagged_elem U body facts m x Hm Hx) as (idx & vs & Hidx & Hallow & Hvs & Hdis).
  exists idx, vs. repeat split; try done.
  apply flagged_ok in Hm as (idx' & _ & _ & _ & Heq). rewrite Heq in Hx.
  apply elem_of_app in Hx as [[_ Hx]%list_elem_of_filter|[_ Hx]%list_elem_of_filter]; auto.
Qed.

(** X2: When the call returns, a string is in the result exactly when it is
    a token of the body (a half of a scoreline, or a standalone number
    that is not allow-listed without its percent signs), its normal form
    is not allow-listed, and no variant of its normal form is in the
    index of the facts. *)
Theorem result_is_the_ungrounded_tokens (U : ucd) (body : option str)
    (facts : option (list fact)) (res : list str) (x : str) :
  find_ungrounded U body facts = Ok res →
  (x ∈ res ↔
   ∃ idx vs, _index_fact_numbers U facts = Ok idx ∧
     _variants U (_normalize_number_token x) = Ok vs ∧ (vs ∩ idx = ∅) ∧
     (_normalize_number_token x ∉ ALLOW) ∧
     (x ∈ score_parts (scorelines_from_text U body)
      ∨ (x ∈ numbers_from_text U body ∧ rstrip "%" x ∉ ALLOW))).
Proof.
  intros (m & (idx & Hidx & _ & _ & ->)%flagged_ok & ->)%find_ungrounded_ok.
  rewrite unique_first_occurrences, first_occurrences_elem_of, elem_of_app,
    !list_elem_of_filter.
  change (scorelines_from_text U (Some (or_empty body))) with (scorelines_from_text U body).
  change (numbers_from_text U (Some (or_empty body))) with (numbers_from_text U body).
  unfold reported, stays_flagged, skip_part, skip_token.
  split.
  - intros [[[Hr Hx]|[Hr Hx]] _]; apply andb_true_iff in Hr as [Hs Hf];
      apply negb_true_iff in Hs;
      destruct (_variants U (_normalize_number_token x)) as [vs|] eqn:Hvs; try done;
      apply bool_decide_eq_true in Hf; exists idx, vs.
    + apply bool_decide_eq_false in Hs. repeat split; auto.
    + apply orb_false_iff in Hs as [H1%bool_decide_eq_false H2%bool_decide_eq_false].
      repeat split; auto.
  - intros (idx' & vs & Hidx' & Hvs & Hdis & Hallow & Hx).
    assert (idx' = idx) as -> by congruence.
    split; [|set_solver]. rewrite Hvs.
    rewrite (bool_decide_eq_true_2 _ Hdis), (bool_decide_eq_false_2 _ Hallow).
    destruct Hx as [Hx|[Hx Hraw]]; [left|right]; (split; [|done]).
    + done.
    + by rewrite (bool_decide_eq_false_2 _ Hraw).
Qed.

Lemma result_is_the_ungrounded_tokens_witness :
  lit "47" ∈ [lit "47"] ↔
   ∃ idx vs, _index_fact_numbers ascii_ucd (Some [fact_of "1.8"]) = Ok idx ∧
     _variants ascii_ucd (_normalize_number_token (lit "47")) = Ok vs ∧ (vs ∩ idx = ∅) ∧
     (_normalize_number_token (lit "47") ∉ ALLOW) ∧
     (lit "47" ∈ score_parts (scorelines_from_text ascii_ucd (Some (lit "47 shots, 90 minutes")))
      ∨ (lit "47" ∈ numbers_from_text ascii_ucd (Some (lit "47 shots, 90 minutes"))
         ∧ rstrip "%" (lit "47") ∉ ALLOW)).
Proof.
  apply (result_is_the_ungrounded_tokens ascii_ucd (Some (lit "47 shots, 90 minutes"))
           (Some [fact_of "1.8"])).
  vm_compute; reflexivity.
Defined.

(** X3: The call returns exactly when [_variants] returns on every token of
    every fact value and on every token of the body that is not
    allow-listed: an exception can only come from [_variants]. *)
Theorem returns_iff_variants_return (U : ucd) (body : option str)
    (facts : option (list fact)) :
  (∃ res, find_ungrounded U body facts = Ok res) ↔
  (∀ f t, f ∈ default [] facts → t ∈ tokens_of U (value_text f) →
          ∃ vs, _variants U (_normalize_number_token t) = Ok vs) ∧
  (∀ t, t ∈ score_parts (scorelines_from_text U body) →
        _normalize_number_token t ∉ ALLOW →
        ∃ vs, _variants U (_normalize_number_token t) = Ok vs) ∧
  (∀ t, t ∈ numbers_from_text U body →
        _normalize_number_token t ∉ ALLOW → rstrip "%" t ∉ ALLOW →
        ∃ vs, _variants U (_normalize_number_token t) = Ok vs).
Proof.
  assert (_index_fact_numbers U facts = _index_fact_numbers U (Some (default [] facts))) as Hopt
    by (by destruct facts).
  split.
  - intros (res & (m & (idx & Hidx & Hp & Ht & _)%flagged_ok & _)%find_ungrounded_ok).
    rewrite Hopt, index_all_tokens in Hidx. apply index_tokens_ok in Hidx as [Hall _].
    split; [|split].
    + intros f t Hf Ht'. apply Hall, elem_of_flat_map. eauto.
    + intros t Hin Hallow. apply Hp; [done|]. unfold skip_part. by apply bool_decide_eq_false.
    + intros t Hin H1 H2. apply Ht; [done|]. unfold skip_token.
      apply orb_false_iff. split; by apply bool_decide_eq_false.
  - intros (Hf & Hp & Ht).
    destruct (index_tokens_returns U
                (flat_map (λ f, tokens_of U (value_text f)) (default [] facts)) ∅) as [idx Hidx].
    { intros t (f & Hin & Htok)%elem_of_flat_map. eauto. }
    rewrite <- index_all_tokens, <- Hopt in Hidx.
    eexists. apply find_ungrounded_ok. eexists. split; [|reflexivity].
    apply flagged_ok. exists idx. split; [done|]. split; [|split; [|reflexivity]].
    + intros t Hin Hs. apply Hp; [done|]. unfold skip_part in Hs.
      by apply bool_decide_eq_false in Hs.
    + intros t Hin Hs. unfold skip_token in Hs.
      apply orb_false_iff in Hs as [H1%bool_decide_eq_false H2%bool_decide_eq_false].
      by apply Ht.
Qed.

(** X4: A token of the body with the normal form of a token of a fact value
    is never in the result. *)
Theorem token_of_a_fact_is_not_flagged (U : ucd) (body : option str) (facts : list fact)
    (res : list str) (f : fact) (t x : str) :
  find_ungrounded U body (Some facts) = Ok res → f ∈ facts →
  t ∈ tokens_of U (value_text f) →
  _normalize_number_token x = _normalize_number_token t → x ∉ res.
Proof.
  intros Hres Hf Ht Hnorm Hx.
  destruct (result_elem U body (Some facts) res x Hres Hx)
    as (idx & vs & Hidx & _ & Hvs & Hdis & _).
  apply (common_variant (_normalize_number_token x) vs idx); [| |done].
  - by apply variants_self in Hvs.
  - rewrite Hnorm. by apply (index_holds_token U facts idx f).
Qed.

Lemma token_of_a_fact_is_not_flagged_witness : lit "1,234%" ∉ [lit "47"].
Proof.
  apply (token_of_a_fact_is_not_flagged ascii_ucd (Some (lit "1,234% of 47"))
           [fact_of "1,234 passes"] [lit "47"] (fact_of "1,234 passes") (lit "1,234")).
  - vm_compute; reflexivity.
  - left.
  - by_evaluation.
  - reflexivity.
Defined.

(** No string of the allow-list holds a comma. *)
Lemma allow_no_comma (s : str) : s ∈ ALLOW → N_of_ascii "," ∉ s.
Proof.
  unfold ALLOW. rewrite elem_of_list_to_set. simpl.
  rewrite !elem_of_cons, elem_of_nil.
  intros H. repeat (destruct H as [->|H]; [by_evaluation|]). done.
Qed.

(** A token that is allow-listed without its percent signs is
    allow-listed in its normal form. *)
Lemma second_allow_test (tok : str) :
  bool_decide (_normalize_number_token tok ∈ ALLOW) || bool_decide (rstrip "%" tok ∈ ALLOW)
  = bool_decide (_normalize_number_token tok ∈ ALLOW).
Proof.
  destruct (bool_decide (_normalize_number_token tok ∈ ALLOW)) eqn:H1; [done|].
  destruct (bool_decide (rstrip "%" tok ∈ ALLOW)) eqn:H2; [|done]. exfalso.
  apply bool_decide_eq_false in H1. apply bool_decide_eq_true in H2. apply H1.
  assert (N_of_ascii "," ∉ tok) as Hc.
  { destruct (rstrip_spec "%" tok) as [k Hk]. rewrite Hk.
    apply allow_no_comma in H2. rewrite elem_of_app. intros [?|Hin]; [done|].
    apply elem_of_replicate in Hin as [Hin _]. discriminate Hin. }
  unfold _normalize_number_token. by rewrite remove_char_fixed.
Qed.

(** X5: The second allow-list test of the loop over the standalone tokens,
    [raw.rstrip("%") in ALLOW], never decides: when it holds, so does the
    first.  The bodies of the two loops are the same function. *)
Theorem check_token_is_check_part (U : ucd) (idx : gset str) (missing : list str)
    (tok : str) :
  check_token U idx missing tok = check_part U idx missing tok.
Proof. unfold check_token, check_part. by rewrite second_allow_test. Qed.

Lemma rstrip_own_char (c : ascii) (s : str) :
  rstrip c (s ++ [N_of_ascii c]) = rstrip c s.
Proof.
  induction s as [|x s IH]; simpl.
  - unfold Chr.only. by rewrite N.eqb_refl.
  - by rewrite IH.
Qed.

(** X6: A percent sign after a token changes nothing but the string that is
    reported: the token with the sign is passed over, flagged or the
    cause of an exception exactly as the token without it. *)
Theorem percent_sign_is_ignored (U : ucd) (idx : gset str) (missing : list str) (tok : str) :
  _normalize_number_token (tok ++ lit "%") = _normalize_number_token tok ∧
  check_token U idx missing (tok ++ lit "%")
  = match check_token U idx missing tok with
    | Ok m => Ok (if bool_decide (m = missing) then missing
                  else missing ++ [tok ++ lit "%"])
    | Raise e => Raise e
    end.
Proof.
  assert (_normalize_number_token (tok ++ lit "%") = _normalize_number_token tok) as Hn.
  { unfold _normalize_number_token, remove_char. rewrite filter_app.
    change (filter _ (lit "%")) with [N_of_ascii "%"]. apply rstrip_own_char. }
  split; [done|]. unfold check_token. rewrite !second_allow_test. unfold ungrounded.
  rewrite Hn. destruct (bool_decide (_normalize_number_token tok ∈ ALLOW)).
  - by rewrite bool_decide_eq_true_2.
  - destruct (_variants U (_normalize_number_token tok)) as [vs|e]; simpl; [|done].
    destruct (bool_decide (vs ∩ idx = ∅)).
    + rewrite bool_decide_eq_false_2; [done|].
      intros H. apply (f_equal length) in H. rewrite length_app in H. simpl in H. lia.
    + by rewrite bool_decide_eq_true_2.
Qed.

(** X7: Deduplication: the result is a sublist of the input, a second pass
    changes nothing, and the input is returned as it is exactly when it
    has no duplicate. *)
Theorem unique_preserve_order_fixed (items : list str) :
  _unique_preserve_order items `sublist_of` items ∧
  _unique_preserve_order (_unique_preserve_order items) = _unique_preserve_order items ∧
  (_unique_preserve_order items = items ↔ NoDup items).
Proof.
  assert (∀ (l : list str) seen, first_occurrences seen l `sublist_of` l) as Hsub.
  { induction l as [|x l IH]; intros seen; simpl; [done|].
    case_bool_decide; [by apply sublist_cons|by apply sublist_skip]. }
  assert (∀ (l : list str) seen, NoDup l → (∀ x, x ∈ l → x ∉ seen) →
            first_occurrences seen l = l) as Hfix.
  { induction l as [|x l IH]; intros seen Hnd Hseen; simpl; [done|].
    apply NoDup_cons in Hnd as [Hx Hnd].
    rewrite bool_decide_eq_false_2 by (apply Hseen; left). f_equal.
    apply IH; [done|]. intros y Hy. specialize (Hseen y). set_solver. }
  rewrite !unique_first_occurrences. split; [apply Hsub|]. split.
  - apply Hfix; [apply first_occurrences_NoDup|set_solver].
  - split.
    + intros <-. apply first_occurrences_NoDup.
    + intros Hnd. apply Hfix; [done|set_solver].
Qed.

Lemma size_union_le (X Y : gset str) : size (X ∪ Y) ≤ size X + size Y.
Proof.
  rewrite size_union_alt. apply Nat.add_le_mono_l, subseteq_size. set_solver.
Qed.

(** X8: What [_variants] returns: when it returns, its result holds the given
    string and at most five strings; when [float] rejects the string, it
    returns, and the result is the string alone. *)
Theorem variants_returned (U : ucd) (n : str) :
  (∀ vs, _variants U n = Ok vs → n ∈ vs ∧ size vs ≤ 5) ∧
  (Float.of_str U n = None → _variants U n = Ok {[ n ]}).
Proof.
  split; [|apply variants_unparsed].
  intros vs Hvs. split; [by apply variants_self in Hvs|].
  unfold _variants in Hvs. destruct (Float.of_str U n) as [f|].
  - destruct (Float.round0 f) as [i|]; simpl in Hvs; [|done].
    destruct (Float.round_nd f 1) as [r1|]; simpl in Hvs; [|done].
    destruct (Float.round_nd f 2) as [r2|]; simpl in Hvs; [|done].
    injection Hvs as <-.
    assert (size (({[ n ]} ∪ {[ Float.str_of_int i ]} ∪ {[ Float.format_fixed 1 r1 ]}
                   ∪ {[ Float.format_fixed 2 r2 ]}) : gset str) ≤ 4) as H4.
    { pose proof (size_union_le ({[ n ]} ∪ {[ Float.str_of_int i ]}
                                   ∪ {[ Float.format_fixed 1 r1 ]})
                                {[ Float.format_fixed 2 r2 ]}) as H1.
      pose proof (size_union_le ({[ n ]} ∪ {[ Float.str_of_int i ]})
                                {[ Float.format_fixed 1 r1 ]}) as H2.
      pose proof (size_union_le {[ n ]} {[ Float.str_of_int i ]}) as H3.
      rewrite !size_singleton in *. lia. }
    destruct (_ && _); [|lia].
    pose proof (size_union_le ({[ n ]} ∪ {[ Float.str_of_int i ]}
                                 ∪ {[ Float.format_fixed 1 r1 ]}
                                 ∪ {[ Float.format_fixed 2 r2 ]})
                              {[ rstrip "." (rstrip "0" n) ]}) as H5.
    rewrite size_singleton in H5. lia.
  - injection Hvs as <-. rewrite size_singleton. lia.
Qed.

(** X9: A missing body is an empty body and missing facts are no facts; on
    an empty body nothing is flagged: the call returns the empty list as
    soon as the index of the facts is built, for a body that is [None] or
    empty. *)
Theorem empty_inputs (U : ucd) (body : option str) (facts : option (list fact)) :
  find_ungrounded U None facts = find_ungrounded U (Some []) facts ∧
  find_ungrounded U body None = find_ungrounded U body (Some []) ∧
  find_ungrounded U None facts = (_ ← _index_fact_numbers U facts; Ok []) ∧
  _index_fact_numbers U None = Ok ∅.
Proof.
  repeat split. unfold find_ungrounded, assert_numbers_in_facts, flagged.
  by destruct (_index_fact_numbers U facts).
Qed.

(** X10: The index grows with the facts: the index of [F ++ G], when it is
    built, contains the index of [F] and the index of [G], which are
    built too, and nothing else. *)
Theorem index_of_more_facts (U : ucd) (F G : list fact) (S : gset str) :
  _index_fact_numbers U (Some (F ++ G)) = Ok S →
  ∃ SF SG, _index_fact_numbers U (Some F) = Ok SF ∧
           _index_fact_numbers U (Some G) = Ok SG ∧ S = SF ∪ SG.
Proof.
  rewrite !index_all_tokens, flat_map_app.
  set (TF := flat_map _ F). set (TG := flat_map _ G).
  intros [Hall HS]%index_tokens_ok.
  destruct (index_tokens_returns U TF ∅) as [SF HF].
  { intros t Ht. apply Hall, elem_of_app. by left. }
  destruct (index_tokens_returns U TG ∅) as [SG HG].
  { intros t Ht. apply Hall, elem_of_app. by right. }
  exists SF, SG. split; [done|]. split; [done|].
  apply index_tokens_ok in HF as [_ HF]. apply index_tokens_ok in HG as [_ HG].
  apply set_eq. intros x. rewrite HS, elem_of_union, HF, HG.
  setoid_rewrite elem_of_app. split.
  - intros [Hx|(t & vs & [Ht|Ht] & Hvs & Hx)].
    + by apply elem_of_empty in Hx.
    + left; right; eauto.
    + right; right; eauto.
  - intros [[Hx|(t & vs & Ht & Hvs & Hx)]|[Hx|(t & vs & Ht & Hvs & Hx)]].
    + by apply elem_of_empty in Hx.
    + right. exists t, vs. auto.
    + by apply elem_of_empty in Hx.
    + right. exists t, vs. auto.
Qed.

Lemma index_of_more_facts_witness :
  ∃ SF SG, _index_fact_numbers ascii_ucd (Some [fact_of "3-1"]) = Ok SF ∧
           _index_fact_numbers ascii_ucd (Some [fact_of "28%"]) = Ok SG ∧
           list_to_set (map lit ["3"; "3.0"; "3.00"; "1"; "1.0"; "1.00"; "-1"; "-1.0"; "-1.00";
                                   "28"; "28.0"; "28.00"]%string) = SF ∪ SG.
Proof.
  apply (index_of_more_facts ascii_ucd [fact_of "3-1"] [fact_of "28%"]).
  vm_compute; reflexivity.
Defined.

(** X11: The strings normalization leaves as they are: those without a comma
    that do not end in a percent sign. *)
Theorem normalize_fixed_points (s : str) :
  _normalize_number_token s = s ↔ (N_of_ascii "," ∉ s) ∧ last s ≠ Some (N_of_ascii "%").
Proof.
  split.
  - intros <-. split; [apply normalize_no_comma|apply rstrip_last].
  - intros [Hc Hl]. unfold _normalize_number_token.
    rewrite remove_char_fixed by done. by apply rstrip_fixed.
Qed.

(* ------------------------------------------------------------------ *)
(** ** The shape of the tokens *)

Section Shape.
Variable U : ucd.
Variable t : str.
Variable q : char → bool.

Lemma spans_nil (p : char → bool) (a : nat) : spans t p a a.
Proof. intros i Hi. lia. Qed.

Lemma spans_app (p1 p2 : char → bool) (a b c : nat) :
  spans t p1 a b → spans t p2 b c → spans t (λ x, p1 x || p2 x) a c.
Proof.
  intros H1 H2 i Hi. destruct (le_lt_dec b i) as [Hb|Hb].
  - specialize (H2 i ltac:(lia)). destruct (char_at t i); [|done]. simpl in *.
    rewrite H2. apply orb_true_r.
  - specialize (H1 i ltac:(lia)). destruct (char_at t i); [|done]. simpl in *.
    by rewrite H1.
Qed.

Lemma spans_same (p : char → bool) (a b c : nat) :
  spans t p a b → spans t p b c → spans t p a c.
Proof.
  intros H1 H2 i Hi. destruct (le_lt_dec b i); [apply H2|apply H1]; lia.
Qed.

Lemma repeat_loop_after (r : regex) (lo : nat) (k : mstate → option mstate)
    (fuel count : nat) (st : mstate) (res : mstate) :
  (∀ st k res, run U r t st k = Some res → ∃ st', k st' = Some res ∧ after t q r st st') →
  repeat_loop (run U r t) lo k fuel count st = Some res →
  ∃ st', k st' = Some res ∧
    pos st + (lo - count) * min_length r ≤ pos st' ∧
    spans t (alphabet r) (pos st) (pos st') ∧
    (groups_within q r → Forall (good_cap t q) (caps st) → Forall (good_cap t q) (caps st')).
Proof.
  intros Hbody. revert count st; induction fuel as [|fuel IH]; intros count st; simpl.
  - destruct (Nat.leb_spec lo count); [|done]. intros Hk. exists st.
    split; [done|]. replace (lo - count) with 0 by lia.
    split; [lia|]. split; [apply spans_nil|auto].
  - destruct (run U r t st _) as [res'|] eqn:Hrun.
    + intros [= ->]. apply Hbody in Hrun as (st1 & Hk1 & Hlen & Hsp & Hcaps).
      destruct (pos st1 =? pos st)%nat; [done|].
      apply IH in Hk1 as (st' & Hk & Hlen' & Hsp' & Hcaps').
      exists st'. split; [done|]. split; [|split].
      * assert ((lo - count) * min_length r
                ≤ min_length r + (lo - S count) * min_length r) by nia. lia.
      * by eapply spans_same.
      * auto.
    + destruct (Nat.leb_spec lo count); [|done]. intros Hk. exists st.
      split; [done|]. replace (lo - count) with 0 by lia.
      split; [lia|]. split; [apply spans_nil|auto].
Qed.

(** A successful match went through the continuation, on a state that
    lies after the match. *)
Lemma run_after (r : regex) (st : mstate) (k : mstate → option mstate) (res : mstate) :
  run U r t st k = Some res → ∃ st', k st' = Some res ∧ after t q r st st'.
Proof.
  revert st k res.
  induction r as [p|r1 IH1 r2 IH2|lo hi r IH|r IH|p|p|]; intros st k res; simpl.
  - destruct (holds p (char_at t (pos st))) eqn:Hp; [|done]. intros Hk.
    eexists. split; [exact Hk|]. split; [simpl; lia|]. split; [|done].
    intros i Hi. simpl in Hi. by replace i with (pos st) by lia.
  - intros (st1 & (st' & Hk & Hl2 & Hs2 & Hc2)%IH2 & Hl1 & Hs1 & Hc1)%IH1.
    exists st'. split; [done|]. split; [simpl; lia|]. split.
    + by eapply spans_app.
    + simpl. intros [Hg1 Hg2] Hcaps. auto.
  - intros (st' & Hk & Hlen & Hsp & Hcaps)%(repeat_loop_after r); [|done].
    exists st'. split; [done|]. split; [|done]. simpl.
    by rewrite Nat.sub_0_r in Hlen.
  - intros (st1 & Hk & Hlen & Hsp & Hcaps)%IH.
    eexists. split; [exact Hk|]. split; [done|]. split; [done|].
    simpl. intros (Hq & Hmin & Hg) Hgood. constructor; [|auto].
    split; simpl; [lia|]. intros i Hi. specialize (Hsp i Hi).
    destruct (char_at t i); [|done]. simpl in *. auto.
  - destruct (holds p (char_before t (pos st))); [done|]. intros Hk.
    exists st. split; [done|]. split; [simpl; lia|]. split; [apply spans_nil|done].
  - destruct (holds p (char_at t (pos st))); [done|]. intros Hk.
    exists st. split; [done|]. split; [simpl; lia|]. split; [apply spans_nil|done].
  - destruct (xorb _ _); [|done]. intros Hk.
    exists st. split; [done|]. split; [simpl; lia|]. split; [apply spans_nil|done].
Qed.

Lemma match_at_after (r : regex) (i : nat) (st : mstate) :
  match_at U r t i = Some st → after t q r (MState i []) st.
Proof.
  unfold match_at. intros (st' & [= ->] & H)%run_after. exact H.
Qed.

Lemma scan_match_at (r : regex) (fuel j i : nat) (st : mstate) :
  (i, st) ∈ scan U r t fuel j → match_at U r t i = Some st.
Proof.
  revert j; induction fuel as [|fuel IH]; intros j; simpl; [by intros ?%elem_of_nil|].
  destruct (length t <? j)%nat; [by intros ?%elem_of_nil|].
  destruct (match_at U r t j) as [st'|] eqn:Hm.
  - intros [[= -> ->]|Hin]%elem_of_cons; [done|]. by eapply IH.
  - apply IH.
Qed.

(** A slice over a span holds its characters, all accepted. *)
Lemma slice_spans (p : char → bool) (a b : nat) :
  spans t p a b → a ≤ b →
  length (slice t a b) = b - a ∧ Forall (λ c, p c = true) (slice t a b).
Proof.
  intros Hsp Hab. unfold slice. split.
  - rewrite length_take, length_drop.
    destruct (decide (a = b)) as [->|Hne]; [lia|].
    specialize (Hsp (b - 1) ltac:(lia)). unfold char_at in Hsp.
    destruct (t !! (b - 1)) eqn:Hl; [|done]. apply lookup_lt_Some in Hl. lia.
  - apply Forall_lookup. intros i c Hi.
    apply lookup_take_Some in Hi as [Hi Hlt]. rewrite lookup_drop in Hi.
    specialize (Hsp (a + i) ltac:(lia)). unfold char_at in Hsp. by rewrite Hi in Hsp.
Qed.

End Shape.

(** The strings a pattern finds are not empty when the pattern takes a
    character at least, and hold only characters of its classes. *)
Lemma findall0_shape (U : ucd) (r : regex) (t tok : str) :
  1 ≤ min_length r → tok ∈ findall0 U r t →
  tok ≠ [] ∧ Forall (λ c, alphabet r c = true) tok.
Proof.
  unfold findall0, matches. intros Hmin ([i st] & -> & Hin)%list_elem_of_fmap. simpl.
  apply scan_match_at, (match_at_after U _ (λ _, true)) in Hin as (Hlen & Hsp & _).
  simpl in Hlen.
  destruct (slice_spans t _ i (pos st) Hsp ltac:(lia)) as [Hl Hall].
  split; [|done]. intros Hnil. rewrite Hnil in Hl. simpl in Hl. lia.
Qed.

(** The halves of the pairs a pattern with two groups finds are not
    empty and hold only characters its groups take. *)
Lemma findall2_shape (U : ucd) (r : regex) (q : char → bool) (t a b : str) :
  groups_within q r → (a, b) ∈ findall2 U r t →
  (a ≠ [] ∧ Forall (λ c, q c = true) a) ∧ (b ≠ [] ∧ Forall (λ c, q c = true) b).
Proof.
  unfold findall2, matches. intros Hgroups ([i st] & Hin & Hab)%list_elem_of_omap.
  simpl in Hab.
  apply scan_match_at, (match_at_after U _ q) in Hin as (_ & _ & Hcaps).
  assert (Forall (good_cap t q) (caps st)) as Hgood by (apply Hcaps; [done|constructor]).
  destruct (caps st) as [|[i2 j2] [|[i1 j1] [|? ?]]]; try done.
  injection Hab as <- <-.
  apply Forall_cons in Hgood as [[H2 S2] [[H1 S1] _]%Forall_cons]. simpl in *.
  destruct (slice_spans t _ i1 j1 S1 ltac:(lia)) as [L1 A1].
  destruct (slice_spans t _ i2 j2 S2 ltac:(lia)) as [L2 A2].
  repeat split; [|done| |done].
  - intros Hnil. rewrite Hnil in L1. simpl in L1. lia.
  - intros Hnil. rewrite Hnil in L2. simpl in L2. lia.
Qed.

Lemma number_alphabet (U : ucd) (c : char) :
  alphabet (_NUM_RE U) c = true → number_char U c = true.
Proof.
  unfold number_char. simpl.
  destruct (Chr.only "-" c), (Chr.is_decimal U c), (Chr.only "," c),
    (Chr.only "." c), (Chr.only "%" c); done.
Qed.

Lemma score_groups (U : ucd) : groups_within (Chr.is_decimal U) (_SCORE_RE U).
Proof. simpl. repeat split; auto. Qed.

(** X12: Every standalone number token is a non-empty string of digits,
    signs, commas, points and percent signs. *)
Theorem number_tokens_shape (U : ucd) (text : option str) (tok : str) :
  tok ∈ numbers_from_text U text →
  tok ≠ [] ∧ Forall (λ c, number_char U c = true) tok.
Proof.
  intros [Hne Hall]%findall0_shape; [|simpl; lia].
  split; [done|]. eapply Forall_impl; [exact Hall|]. apply number_alphabet.
Qed.

Lemma number_tokens_shape_witness :
  lit "-1,234.5%" ≠ [] ∧ Forall (λ c, number_char ascii_ucd c = true) (lit "-1,234.5%").
Proof.
  apply (number_tokens_shape ascii_ucd (Some (lit "up -1,234.5% on Matchday3"))).
  by_evaluation.
Defined.

(** X13: Every half of a scoreline is a non-empty string of decimal digits. *)
Theorem scoreline_halves_shape (U : ucd) (text : option str) (a b : str) :
  (a, b) ∈ scorelines_from_text U text →
  (a ≠ [] ∧ Forall (λ c, Chr.is_decimal U c = true) a) ∧
  (b ≠ [] ∧ Forall (λ c, Chr.is_decimal U c = true) b).
Proof. apply findall2_shape, score_groups. Qed.

Lemma scoreline_halves_shape_witness :
  (lit "10" ≠ [] ∧ Forall (λ c, Chr.is_decimal ascii_ucd c = true) (lit "10")) ∧
  (lit "2" ≠ [] ∧ Forall (λ c, Chr.is_decimal ascii_ucd c = true) (lit "2")).
Proof.
  apply (scoreline_halves_shape ascii_ucd (Some (lit "won 10 - 2 away"))).
  by_evaluation.
Defined.

(** X14: Every string of the result is a non-empty string of digits, signs,
    commas, points and percent signs. *)
Theorem result_tokens_shape (U : ucd) (body : option str) (facts : option (list fact))
    (res : list str) (x : str) :
  find_ungrounded U body facts = Ok res → x ∈ res →
  x ≠ [] ∧ Forall (λ c, number_char U c = true) x.
Proof.
  intros Hres Hx.
  destruct (result_elem U body facts res x Hres Hx) as (idx & vs & _ & _ & _ & _ & [Hin|Hin]).
  - unfold score_parts in Hin. apply elem_of_flat_map in Hin as ([a b] & Hab & Hin).
    apply (findall2_shape U _ (Chr.is_decimal U)) in Hab as [[Ha Da] [Hb Db]];
      [|apply score_groups].
    assert (∀ d, Forall (λ c, Chr.is_decimal U c = true) d →
                 Forall (λ c, number_char U c = true) d) as Hnum.
    { intros d Hd. eapply Forall_impl; [exact Hd|]. intros c Hc. unfold number_char.
      simpl in Hc. rewrite Hc. by destruct (Chr.only "-" c). }
    simpl in Hin. apply elem_of_cons in Hin as [->|Hin]; [auto|].
    apply elem_of_cons in Hin as [->|Hin]; [auto|]. by apply elem_of_nil in Hin.
  - apply findall0_shape in Hin as [Hne Hall]; [|simpl; lia].
    split; [done|]. eapply Forall_impl; [exact Hall|]. apply number_alphabet.
Qed.

Lemma result_tokens_shape_witness :
  lit "-4" ≠ [] ∧ Forall (λ c, number_char ascii_ucd c = true) (lit "-4").
Proof.
  apply (result_tokens_shape ascii_ucd (Some (lit "7-4")) (Some [fact_of "3-1"])
           [lit "7"; lit "4"; lit "-4"]).
  - vm_compute; reflexivity.
  - by_evaluation.
Defined.

(* ------------------------------------------------------------------ *)
(** ** Texts without digits *)

Section NoDigit.
Variable U : ucd.
Variable t : str.
Hypothesis no_digit : Forall (λ c, Chr.is_decimal U c = false) t.

Lemma no_digit_at (i : nat) : holds (Chr.is_decimal U) (char_at t i) = false.
Proof.
  unfold char_at. destruct (t !! i) as [c|] eqn:Hc; [|done].
  simpl. by apply (Forall_lookup_1 _ _ _ _ no_digit Hc).
Qed.

Lemma digits_none (lo : nat) (hi : option nat) (st : mstate) (k : mstate → option mstate) :
  run U (Repeat (S lo) hi (Class (Chr.is_decimal U))) t st k = None.
Proof.
  simpl. destruct (match hi with Some h => h | None => length t end) as [|fuel]; simpl;
    [done|]. by rewrite no_digit_at.
Qed.

Lemma seq_none_r (r1 r2 : regex) (st : mstate) (k : mstate → option mstate) :
  (∀ st', run U r2 t st' k = None) → run U (Seq r1 r2) t st k = None.
Proof.
  intros Hnone. simpl. apply (local_none t); [apply run_local|]. intros st' _. apply Hnone.
Qed.

Lemma seq_none_l (r1 r2 : regex) (st : mstate) (k : mstate → option mstate) :
  (∀ k', run U r1 t st k' = None) → run U (Seq r1 r2) t st k = None.
Proof. intros Hnone. apply Hnone. Qed.

Lemma group_none (r : regex) (st : mstate) (k : mstate → option mstate) :
  (∀ k', run U r t st k' = None) → run U (Group r) t st k = None.
Proof. intros Hnone. apply Hnone. Qed.

Lemma no_number_match (i : nat) : match_at U (_NUM_RE U) t i = None.
Proof.
  unfold match_at, _NUM_RE. apply seq_none_r. intros st1. apply seq_none_r. intros st2.
  apply seq_none_l. intros k'. apply digits_none.
Qed.

Lemma no_score_match (i : nat) : match_at U (_SCORE_RE U) t i = None.
Proof.
  unfold match_at, _SCORE_RE. apply seq_none_r. intros st1.
  apply seq_none_l. intros k'. apply group_none. intros k''. apply digits_none.
Qed.

Lemma scan_none (r : regex) (fuel j : nat) :
  (∀ i, match_at U r t i = None) → scan U r t fuel j = [].
Proof.
  intros Hnone. revert j; induction fuel as [|fuel IH]; intros j; simpl; [done|].
  destruct (length t <? j)%nat; [done|]. by rewrite Hnone.
Qed.

Lemma no_digit_no_token :
  numbers_from_text U (Some t) = [] ∧ scorelines_from_text U (Some t) = [].
Proof.
  unfold numbers_from_text, scorelines_from_text, findall0, findall2, matches.
  change (or_empty (Some t)) with t. split.
  - by rewrite scan_none by apply no_number_match.
  - by rewrite scan_none by apply no_score_match.
Qed.

End NoDigit.

(** X15: On a body without a decimal digit nothing is flagged: the call
    returns the empty list as soon as the index of the facts is built. *)
Theorem body_without_digits (U : ucd) (body : str) (facts : option (list fact)) :
  Forall (λ c, Chr.is_decimal U c = false) body →
  numbers_from_text U (Some body) = [] ∧ scorelines_from_text U (Some body) = [] ∧
  find_ungrounded U (Some body) facts = (_ ← _index_fact_numbers U facts; Ok []).
Proof.
  intros Hno. destruct (no_digit_no_token U body Hno) as [Hn Hs].
  split; [done|]. split; [done|].
  unfold find_ungrounded, assert_numbers_in_facts, flagged.
  change (or_empty (Some body)) with body. rewrite Hn, Hs.
  by destruct (_index_fact_numbers U facts).
Qed.

Lemma body_without_digits_witness :
  numbers_from_text ascii_ucd (Some (lit "A goalless draw.")) = [] ∧
  scorelines_from_text ascii_ucd (Some (lit "A goalless draw.")) = [] ∧
  find_ungrounded ascii_ucd (Some (lit "A goalless draw.")) (Some [fact_of "3-1"])
  = (_ ← _index_fact_numbers ascii_ucd (Some [fact_of "3-1"]); Ok []).
Proof.
  apply body_without_digits. by_evaluation.
Defined.

(** X16: A fact whose value holds no decimal digit (a missing or empty value,
    a name, a dash) adds nothing to the index, wherever it stands. *)
Theorem fact_without_digits (U : ucd) (F G : list fact) (f : fact) :
  Forall (λ c, Chr.is_decimal U c = false) (value_text f) →
  _index_fact_numbers U (Some (F ++ f :: G)) = _index_fact_numbers U (Some (F ++ G)).
Proof.
  intros Hno. rewrite !index_all_tokens, !flat_map_app. simpl.
  destruct (no_digit_no_token U (value_text f) Hno) as [Hn Hs].
  unfold tokens_of at 2. by rewrite Hn, Hs.
Qed.

Lemma fact_without_digits_witness :
  _index_fact_numbers ascii_ucd
    (Some ([fact_of "3-1"] ++ Fact (lit "Venue") None (lit "view") :: [fact_of "28%"]))
  = _index_fact_numbers ascii_ucd (Some ([fact_of "3-1"] ++ [fact_of "28%"])).
Proof.
  apply (fact_without_digits ascii_ucd [fact_of "3-1"] [fact_of "28%"]
           (Fact (lit "Venue") None (lit "view"))).
  constructor.
Defined.

(* ------------------------------------------------------------------ *)
(** ** Scorelines of two runs of digits *)

Lemma run_Seq (U : ucd) (r1 r2 : regex) (t : str) (st : mstate) (k : mstate → option mstate) :
  run U (Seq r1 r2) t st k = run U r1 t st (λ st', run U r2 t st' k).
Proof. reflexivity. Qed.

Lemma run_Group (U : ucd) (r : regex) (t : str) (st : mstate) (k : mstate → option mstate) :
  run U (Group r) t st k
  = run U r t st (λ st', k (MState (pos st') ((pos st, pos st') :: caps st'))).
Proof. reflexivity. Qed.

Lemma run_Repeat (U : ucd) (lo : nat) (hi : option nat) (r : regex) (t : str) (st : mstate)
    (k : mstate → option mstate) :
  run U (Repeat lo hi r) t st k
  = repeat_loop (run U r t) lo k (match hi with Some h => h | None => length t end) 0 st.
Proof. reflexivity. Qed.

Lemma run_Class (U : ucd) (p : char → bool) (t : str) (st : mstate)
    (k : mstate → option mstate) :
  run U (Class p) t st k
  = if holds p (char_at t (pos st)) then k (MState (S (pos st)) (caps st)) else None.
Proof. reflexivity. Qed.

Lemma run_WordBoundary (U : ucd) (t : str) (st : mstate) (k : mstate → option mstate) :
  run U WordBoundary t st k
  = if xorb (holds (Chr.is_word U) (char_before t (pos st)))
            (holds (Chr.is_word U) (char_at t (pos st)))
    then k st else None.
Proof. reflexivity. Qed.

Lemma char_at_middle (pre post : str) (a : nat) :
  a = length pre → char_at (pre ++ post) a = head post.
Proof.
  intros ->. unfold char_at. rewrite lookup_app_r by lia.
  rewrite Nat.sub_diag. by destruct post.
Qed.

Lemma repeat_loop_S (body : mstate → (mstate → option mstate) → option mstate) (lo : nat)
    (k : mstate → option mstate) (fuel count : nat) (st : mstate) :
  repeat_loop body lo k (S fuel) count st
  = match body st (λ st', if (pos st' =? pos st)%nat then None
                          else repeat_loop body lo k fuel (S count) st') with
    | Some res => Some res
    | None => if (lo <=? count)%nat then k st else None
    end.
Proof. reflexivity. Qed.

(** A greedy repeat of a class over a run of accepted characters takes
    the whole run, when a refused character or the end follows or the
    repeat may take no more, and the rest of the pattern matches from
    there. *)
Lemma greedy_class_bounded (U : ucd) (p : char → bool) (lo : nat)
    (k : mstate → option mstate) (t l : str) :
  ∀ (pre post : str) (fuel count a : nat) (cs : list (nat * nat)) (res : mstate),
  t = pre ++ l ++ post → a = length pre →
  Forall (λ c, p c = true) l → holds p (head post) = false ∨ fuel = length l →
  length l ≤ fuel → lo ≤ count + length l →
  k (MState (a + length l) cs) = Some res →
  repeat_loop (run U (Class p) t) lo k fuel count (MState a cs) = Some res.
Proof.
  induction l as [|c l IH]; intros pre post fuel count a cs res Ht Ha Hl Hpost Hfuel Hlo Hk.
  - simpl in *. rewrite Nat.add_0_r in Hk, Hlo.
    destruct fuel as [|fuel]; simpl.
    + by rewrite (proj2 (Nat.leb_le _ _) Hlo).
    + destruct Hpost as [Hpost|?]; [|done].
      assert (holds p (char_at t a) = false) as Hc by (rewrite Ht; by rewrite char_at_middle).
      by rewrite Hc, (proj2 (Nat.leb_le _ _) Hlo).
  - apply Forall_cons in Hl as [Hc Hl]. simpl in Hfuel, Hlo, Hk.
    destruct fuel as [|fuel]; [lia|].
    rewrite repeat_loop_S, run_Class.
    change (pos (MState a cs)) with a. change (caps (MState a cs)) with cs.
    assert (char_at t a = Some c) as -> by (rewrite Ht; by rewrite char_at_middle).
    change (holds p (Some c)) with (p c). rewrite Hc.
    change (pos (MState (S a) cs)) with (S a).
    rewrite (proj2 (Nat.eqb_neq (S a) a)) by lia.
    rewrite (IH (pre ++ [c]) post fuel (S count) (S a) cs res); [done|..]; try done; try lia.
    + rewrite Ht. by rewrite <- app_assoc.
    + rewrite length_app. simpl. lia.
    + destruct Hpost as [?|Hf]; [by left|right]. simpl in Hf. lia.
    + by replace (S a + length l) with (a + S (length l)) by lia.
Qed.

Lemma greedy_class (U : ucd) (p : char → bool) (lo : nat) (k : mstate → option mstate)
    (t l : str) (pre post : str) (fuel count a : nat) (cs : list (nat * nat)) (res : mstate) :
  t = pre ++ l ++ post → a = length pre →
  Forall (λ c, p c = true) l → holds p (head post) = false →
  length l ≤ fuel → lo ≤ count + length l →
  k (MState (a + length l) cs) = Some res →
  repeat_loop (run U (Class p) t) lo k fuel count (MState a cs) = Some res.
Proof. intros. eapply greedy_class_bounded; eauto. Qed.

(** A repeat that needs an iteration fails where its class refuses the
    character. *)
Lemma needed_class_none (U : ucd) (p : char → bool) (lo : nat) (hi : option nat) (t : str)
    (st : mstate) (k : mstate → option mstate) :
  holds p (char_at t (pos st)) = false →
  run U (Repeat (S lo) hi (Class p)) t st k = None.
Proof.
  intros Hp. rewrite run_Repeat.
  destruct (match hi with Some h => h | None => length t end); simpl; [done|].
  by rewrite Hp.
Qed.

Lemma scan_S (U : ucd) (r : regex) (t : str) (fuel i : nat) :
  scan U r t (S fuel) i
  = if (length t <? i)%nat then []
    else match match_at U r t i with
         | Some st => (i, st) :: scan U r t fuel (if (pos st =? i)%nat then S i else pos st)
         | None => scan U r t fuel (S i)
         end.
Proof. reflexivity. Qed.

(** No scoreline starts at the end of the text. *)
Lemma score_none_at_end (U : ucd) (t : str) : match_at U (_SCORE_RE U) t (length t) = None.
Proof.
  unfold match_at, _SCORE_RE. rewrite run_Seq, run_WordBoundary.
  destruct (xorb _ _); [|done].
  apply seq_none_l. intros k'. apply group_none. intros k''. apply needed_class_none.
  simpl. unfold char_at. by rewrite lookup_ge_None_2.
Qed.

Ltac solve_length := repeat (rewrite length_app || rewrite length_cons); simpl; lia.

Section TwoRuns.
Variable U : ucd.
Variables d1 d2 s1 s2 : str.
Variable dash : char.
Hypothesis d1_digits : Forall (λ c, Chr.is_ascii_digit c = true) d1.
Hypothesis d2_digits : Forall (λ c, Chr.is_ascii_digit c = true) d2.
Hypothesis d1_some : d1 ≠ [].
Hypothesis d2_some : d2 ≠ [].
Hypothesis s1_spaces : Forall (λ c, c = 32%N) s1.
Hypothesis s2_spaces : Forall (λ c, c = 32%N) s2.
Hypothesis dash_dash : is_dash dash = true.
Hypothesis dash_no_digit : Chr.is_decimal U dash = false.
Hypothesis dash_no_space : Chr.is_space U dash = false.

Let t := d1 ++ s1 ++ dash :: s2 ++ d2.

Lemma ascii_digit_classes (c : char) :
  Chr.is_ascii_digit c = true →
  Chr.is_decimal U c = true ∧ Chr.is_word U c = true ∧ Chr.is_space U c = false.
Proof.
  unfold Chr.is_decimal, Chr.to_decimal, Chr.is_word, Chr.is_space, Chr.is_ascii_digit,
    Chr.is_ascii, Chr.is_ascii_letter, Chr.between.
  intros [H1 H2]%andb_true_iff. apply N.leb_le in H1, H2.
  repeat match goal with
         | |- context [(?a <=? ?b)%N] => destruct (N.leb_spec a b); try lia
         | |- context [(?a <? ?b)%N] => destruct (N.ltb_spec a b); try lia
         end.
  simpl. repeat split; try done; by destruct (c =? 95)%N.
Qed.

Lemma digits_decimal (d : str) :
  Forall (λ c, Chr.is_ascii_digit c = true) d → Forall (λ c, Chr.is_decimal U c = true) d.
Proof. intros H. eapply Forall_impl; [exact H|]. intros c Hc. by apply ascii_digit_classes. Qed.

Lemma spaces_space (s : str) :
  Forall (λ c, c = 32%N) s → Forall (λ c, Chr.is_space U c = true) s.
Proof. intros H. eapply Forall_impl; [exact H|]. by intros c ->. Qed.

Lemma head_digit (d rest : str) (p : char → bool) :
  Forall (λ c, Chr.is_ascii_digit c = true) d → d ≠ [] →
  (∀ c, Chr.is_ascii_digit c = true → p c = false) → holds p (head (d ++ rest)) = false.
Proof.
  intros Hd Hne Hp. destruct d as [|c d]; [done|]. simpl. apply Hp.
  by apply Forall_cons in Hd as [Hc _].
Qed.

Lemma head_sep (p : char → bool) (s rest : str) :
  Forall (λ c, c = 32%N) s → p 32%N = false → p dash = false →
  holds p (head (s ++ dash :: rest)) = false.
Proof.
  intros Hs H32 Hd. destruct s as [|c s]; [done|]. simpl.
  apply Forall_cons in Hs as [-> _]. done.
Qed.

Let final : mstate :=
  MState (length t) [(length (d1 ++ s1 ++ dash :: s2), length t); (0, length d1)].

Lemma two_runs_match : match_at U (_SCORE_RE U) t 0 = Some final.
Proof.
  unfold match_at, _SCORE_RE.
  rewrite run_Seq, run_WordBoundary. simpl pos. simpl char_before.
  assert (holds (Chr.is_word U) (char_at t 0) = true) as ->.
  { unfold t. destruct d1 as [|c d]; [done|]. simpl.
    apply Forall_cons in d1_digits as [Hc _]. by apply ascii_digit_classes. }
  simpl xorb. cbv iota.
  rewrite run_Seq, run_Group, run_Repeat.
  apply (greedy_class U _ _ _ t d1 [] (s1 ++ dash :: s2 ++ d2)); try done.
  { by apply digits_decimal. }
  { apply head_sep; [done..|]. done. }
  { unfold t. solve_length. }
  { destruct d1; [done|simpl; lia]. }
  cbv beta. simpl pos. simpl caps.
  rewrite run_Seq, run_Repeat.
  apply (greedy_class U _ _ _ t s1 d1 (dash :: s2 ++ d2)); try done.
  { by apply spaces_space. }
  { unfold t. solve_length. }
  { lia. }
  cbv beta. rewrite run_Seq, run_Class. simpl pos. simpl caps.
  assert (char_at t (length d1 + length s1) = Some dash) as ->.
  { unfold t. rewrite (app_assoc d1 s1). apply char_at_middle. rewrite length_app. lia. }
  simpl holds. rewrite dash_dash.
  rewrite run_Seq, run_Repeat.
  apply (greedy_class U _ _ _ t s2 (d1 ++ s1 ++ [dash]) d2); try done.
  { unfold t. by rewrite <- !app_assoc. }
  { solve_length. }
  { by apply spaces_space. }
  { rewrite <- (app_nil_r d2). apply head_digit; [done..|].
    intros c Hc. by apply ascii_digit_classes. }
  { unfold t. solve_length. }
  { lia. }
  cbv beta. rewrite run_Seq, run_Group, run_Repeat. simpl pos. simpl caps.
  apply (greedy_class U _ _ _ t d2 (d1 ++ s1 ++ dash :: s2) []); try done.
  { unfold t. rewrite app_nil_r. by rewrite <- !app_assoc. }
  { solve_length. }
  { by apply digits_decimal. }
  { unfold t. solve_length. }
  { destruct d2; [done|simpl; lia]. }
  cbv beta. simpl pos. simpl caps. rewrite run_WordBoundary. simpl pos.
  assert (S (length d1 + length s1 + length s2 + length d2) = length t) as Hlen.
  { unfold t. solve_length. }
  rewrite Hlen.
  assert (char_at t (length t) = None) as -> by (apply lookup_ge_None; lia).
  assert (holds (Chr.is_word U) (char_before t (length t)) = true) as ->.
  { destruct (exists_last d2_some) as (d & c & Hd).
    assert (t = (d1 ++ s1 ++ dash :: s2 ++ d) ++ [c]) as ->.
    { unfold t. rewrite Hd. repeat (rewrite <- app_assoc || simpl). done. }
    rewrite length_app, Nat.add_1_r. unfold char_before.
    rewrite list_lookup_middle by done. simpl. apply ascii_digit_classes.
    pose proof d2_digits as Hd2. rewrite Hd in Hd2. apply Forall_app in Hd2 as [_ Hc].
    by apply Forall_cons in Hc as [Hc _]. }
  simpl. unfold final. f_equal. f_equal. f_equal.
  f_equal; unfold t; solve_length.
Qed.

Lemma two_runs_matches : matches U (_SCORE_RE U) t = [(0, final)].
Proof.
  unfold matches. rewrite scan_S.
  change (length t <? 0)%nat with false. cbv iota.
  rewrite two_runs_match.
  assert (0 < length t) as Hpos by (unfold t; destruct d1; [done|simpl; lia]).
  change (pos final) with (length t).
  rewrite (proj2 (Nat.eqb_neq (length t) 0)) by lia.
  f_equal.
  pose proof (score_none_at_end U t) as Hend.
  destruct (length t) as [|n] eqn:Hn; [lia|].
  rewrite scan_S, Hn, Nat.ltb_irrefl, Hend.
  destruct n as [|n]; [done|].
  rewrite scan_S, Hn. by rewrite (proj2 (Nat.ltb_lt _ _)) by lia.
Qed.

Lemma two_runs_slices :
  slice t 0 (length d1) = d1 ∧ slice t (length (d1 ++ s1 ++ dash :: s2)) (length t) = d2.
Proof.
  unfold slice. split.
  - rewrite Nat.sub_0_r, drop_0. unfold t. by rewrite take_app_length.
  - assert (t = (d1 ++ s1 ++ dash :: s2) ++ d2) as Ht.
    { unfold t. repeat (rewrite <- app_assoc || simpl). done. }
    rewrite Ht at 2. rewrite drop_app_length. apply take_ge.
    rewrite Ht, length_app. lia.
Qed.

Lemma two_runs_scorelines : scorelines_from_text U (Some t) = [(d1, d2)].
Proof.
  unfold scorelines_from_text, findall2. change (or_empty (Some t)) with t.
  rewrite two_runs_matches. destruct two_runs_slices as [H1 H2].
  simpl. by rewrite H1, H2.
Qed.

End TwoRuns.

(** X17: Two runs of ASCII digits around a dash, with spaces on either side of
    the dash or none, are one scoreline: its halves are the two runs.
    The dash is the hyphen or the en dash; [\d] and [\s] must not take
    it (they never take the hyphen, nor the en dash of Unicode). *)
Theorem scoreline_of_two_runs (U : ucd) (d1 d2 s1 s2 : str) (dash : char) :
  Forall (λ c, Chr.is_ascii_digit c = true) d1 → d1 ≠ [] →
  Forall (λ c, Chr.is_ascii_digit c = true) d2 → d2 ≠ [] →
  Forall (λ c, c = 32%N) s1 → Forall (λ c, c = 32%N) s2 →
  is_dash dash = true → Chr.is_decimal U dash = false → Chr.is_space U dash = false →
  scorelines_from_text U (Some (d1 ++ s1 ++ dash :: s2 ++ d2)) = [(d1, d2)].
Proof. intros. by apply two_runs_scorelines. Qed.

Lemma scoreline_of_two_runs_witness :
  scorelines_from_text ascii_ucd (Some (lit "12" ++ lit " " ++ en_dash :: lit "  " ++ lit "3"))
  = [(lit "12", lit "3")].
Proof.
  apply (scoreline_of_two_runs ascii_ucd (lit "12") (lit "3") (lit " ") (lit "  ") en_dash);
    try done; by_evaluation.
Defined.

(* ------------------------------------------------------------------ *)
(** ** Number tokens of two runs of digits *)

Lemma run_NotBehind (U : ucd) (p : char → bool) (t : str) (st : mstate)
    (k : mstate → option mstate) :
  run U (NotBehind p) t st k = if holds p (char_before t (pos st)) then None else k st.
Proof. reflexivity. Qed.

Lemma run_NotAhead (U : ucd) (p : char → bool) (t : str) (st : mstate)
    (k : mstate → option mstate) :
  run U (NotAhead p) t st k = if holds p (char_at t (pos st)) then None else k st.
Proof. reflexivity. Qed.

Lemma repeat_loop_O (body : mstate → (mstate → option mstate) → option mstate) (lo : nat)
    (k : mstate → option mstate) (count : nat) (st : mstate) :
  repeat_loop body lo k 0 count st = if (lo <=? count)%nat then k st else None.
Proof. reflexivity. Qed.

(** A repeat that may be empty is empty where its body fails. *)
Lemma repeat_zero (body : mstate → (mstate → option mstate) → option mstate)
    (k : mstate → option mstate) (fuel : nat) (st : mstate) :
  (∀ k', body st k' = None) → repeat_loop body 0 k fuel 0 st = k st.
Proof. intros Hnone. destruct fuel; [done|]. by rewrite repeat_loop_S, Hnone. Qed.

Lemma char_before_end (pre post : str) (a : nat) :
  a = length pre → char_before (pre ++ post) a = last pre.
Proof.
  intros ->. destruct pre as [|x pre _] using rev_ind; [done|].
  rewrite length_app, Nat.add_1_r, last_snoc, <- app_assoc. unfold char_before.
  by apply list_lookup_middle.
Qed.

Lemma outside_number_classes (U : ucd) (c : option char) :
  holds (outside_number U) c = true ∨ c = None ∨ c = Some (N_of_ascii "-") →
  holds (Chr.is_decimal U) c = false ∧ holds (Chr.only ",") c = false ∧
  holds (Chr.only ".") c = false ∧ holds (Chr.only "%") c = false ∧
  holds Chr.is_ascii_letter c = false.
Proof.
  intros [H|[->| ->]]; [|done..]. destruct c as [c|]; [|done]. simpl in *.
  unfold outside_number in H. apply negb_true_iff in H.
  repeat (apply orb_false_iff in H as [H ?]). done.
Qed.

(** A number token: an optional hyphen and one to three ASCII digits,
    not after an ASCII letter, and followed by nothing that the pattern
    could take or refuse. *)
Lemma number_match (U : ucd) (t pre sg d post : str) (a : nat) :
  t = pre ++ sg ++ d ++ post → a = length pre →
  holds Chr.is_ascii_letter (last pre) = false →
  sg = [] ∨ sg = lit "-" →
  Forall (λ c, Chr.is_ascii_digit c = true) d → d ≠ [] → length d ≤ 3 →
  length d = 3 ∨ holds (Chr.is_decimal U) (head post) = false →
  holds (Chr.only ",") (head post) = false → holds (Chr.only ".") (head post) = false →
  holds (Chr.only "%") (head post) = false → holds Chr.is_ascii_letter (head post) = false →
  match_at U (_NUM_RE U) t a = Some (MState (a + length sg + length d) []).
Proof.
  intros Ht Ha Hpre Hsg Hd Hne Hlen Hstop Hcomma Hpoint Hpct Hletter.
  assert (holds (Chr.only "-") (head (d ++ post)) = false) as Hminus.
  { destruct d as [|c d]; [done|]. apply Forall_cons in Hd as [Hc _]. simpl.
    unfold Chr.only. apply N.eqb_neq. intros ->. done. }
  assert (char_at t (a + length sg + length d) = head post) as Hnext.
  { rewrite Ht, !app_assoc. apply char_at_middle. rewrite !length_app. lia. }
  unfold match_at, _NUM_RE.
  rewrite run_Seq, run_NotBehind. simpl pos.
  rewrite Ht at 1. rewrite (char_before_end pre _ a Ha), Hpre.
  rewrite run_Seq, run_Repeat.
  apply (greedy_class U _ _ _ t sg pre (d ++ post)); try done.
  { destruct Hsg as [-> | ->]; by repeat constructor. }
  { destruct Hsg as [-> | ->]; simpl; lia. }
  { lia. }
  cbv beta. rewrite run_Seq, run_Repeat.
  apply (greedy_class_bounded U _ _ _ t d (pre ++ sg) post); try done.
  { by rewrite <- app_assoc. }
  { rewrite length_app. lia. }
  { eapply Forall_impl; [exact Hd|]. intros c Hc. by apply ascii_digit_classes. }
  { destruct Hstop as [?|?]; [by right|by left]. }
  { destruct d; [done|simpl; lia]. }
  cbv beta. rewrite run_Seq, run_Repeat.
  rewrite repeat_zero
    by (intros k'; rewrite run_Seq, run_Class; simpl pos; by rewrite Hnext, Hcomma).
  rewrite run_Seq, run_Repeat.
  rewrite repeat_zero
    by (intros k'; rewrite run_Seq, run_Class; simpl pos; by rewrite Hnext, Hpoint).
  rewrite run_Seq, run_Repeat.
  rewrite repeat_zero by (intros k'; rewrite run_Class; simpl pos; by rewrite Hnext, Hpct).
  rewrite run_NotAhead. simpl pos. by rewrite Hnext, Hletter.
Qed.

(** No number token starts where no digit is, nor a hyphen before a
    digit. *)
Lemma number_none (U : ucd) (t : str) (i : nat) :
  holds (Chr.is_decimal U) (char_at t i) = false →
  (holds (Chr.only "-") (char_at t i) = true →
   holds (Chr.is_decimal U) (char_at t (S i)) = false) →
  match_at U (_NUM_RE U) t i = None.
Proof.
  intros Hd Hnext. unfold match_at, _NUM_RE.
  rewrite run_Seq, run_NotBehind. destruct (holds _ (char_before _ _)); [done|].
  assert (∀ st k, holds (Chr.is_decimal U) (char_at t (pos st)) = false →
            run U (Seq (Repeat 1 (Some 3) (Class (Chr.is_decimal U))) k) t st Some = None)
    as Hdigits.
  { intros st k H. rewrite run_Seq. by apply needed_class_none. }
  rewrite run_Seq, run_Repeat, repeat_loop_S, run_Class. simpl pos. simpl caps.
  pose proof (Hdigits (MState i [])) as H0. simpl pos in H0.
  destruct (holds (Chr.only "-") (char_at t i)) eqn:Hm.
  - pose proof (Hdigits (MState (S i) [])) as H1. simpl pos in H1.
    rewrite (proj2 (Nat.eqb_neq (S i) i)) by lia. rewrite repeat_loop_O.
    change (0 <=? 1)%nat with true. change (0 <=? 0)%nat with true. cbv iota beta.
    rewrite H1 by (by apply Hnext). by apply H0.
  - change (0 <=? 0)%nat with true. cbv iota beta. by apply H0.
Qed.

Lemma scan_hit (U : ucd) (r : regex) (t : str) (fuel i : nat) (st : mstate) :
  i ≤ length t → match_at U r t i = Some st → pos st ≠ i →
  scan U r t (S fuel) i = (i, st) :: scan U r t fuel (pos st).
Proof.
  intros Hi Hm Hpos. rewrite scan_S, Hm.
  rewrite (proj2 (Nat.ltb_ge _ _)) by lia. by rewrite (proj2 (Nat.eqb_neq _ _)).
Qed.

Lemma scan_gap (U : ucd) (r : regex) (t : str) (fuel g : nat) :
  ∀ a, (∀ i, a ≤ i < a + g → match_at U r t i = None) → a + g ≤ S (length t) →
  scan U r t (g + fuel) a = scan U r t fuel (a + g).
Proof.
  induction g as [|g IH]; intros a Hnone Hlen.
  - by rewrite Nat.add_0_r.
  - change (S g + fuel) with (S (g + fuel)). rewrite scan_S.
    rewrite (proj2 (Nat.ltb_ge _ _)) by lia. rewrite Hnone by lia.
    rewrite IH; [f_equal; lia| |lia]. intros i Hi. apply Hnone. lia.
Qed.

Lemma scan_end (U : ucd) (r : regex) (t : str) (fuel : nat) :
  match_at U r t (length t) = None → scan U r t fuel (length t) = [].
Proof.
  intros Hnone. destruct fuel as [|fuel]; [done|].
  rewrite scan_S, Nat.ltb_irrefl, Hnone. destruct fuel as [|fuel]; [done|].
  rewrite scan_S. by rewrite (proj2 (Nat.ltb_lt _ _)) by lia.
Qed.

Section TwoNumbers.
Variable U : ucd.
Variables d1 gap sg d2 : str.
Hypothesis d1_digits : Forall (λ c, Chr.is_ascii_digit c = true) d1.
Hypothesis d2_digits : Forall (λ c, Chr.is_ascii_digit c = true) d2.
Hypothesis d1_some : d1 ≠ [].
Hypothesis d2_some : d2 ≠ [].
Hypothesis d1_short : length d1 ≤ 3.
Hypothesis d2_short : length d2 ≤ 3.
Hypothesis sign_or_none : sg = [] ∨ sg = lit "-".
Hypothesis gap_no_digit : Forall (λ c, Chr.is_decimal U c = false) gap.
Hypothesis gap_head : ∀ c, head gap = Some c → outside_number U c = true.
Hypothesis gap_last :
  ∀ c, last gap = Some c → Chr.is_ascii_letter c = false ∧ c ≠ N_of_ascii "-".
Hypothesis apart : gap ≠ [] ∨ sg ≠ [].

Let t := d1 ++ gap ++ sg ++ d2.

Lemma two_numbers_first : match_at U (_NUM_RE U) t 0 = Some (MState (length d1) []).
Proof.
  assert (holds (outside_number U) (head (gap ++ sg ++ d2)) = true
          ∨ head (gap ++ sg ++ d2) = None ∨ head (gap ++ sg ++ d2) = Some (N_of_ascii "-"))
    as (Hd & Hc & Hp & Hpct & Hl)%outside_number_classes.
  { destruct gap as [|c g]; simpl.
    - destruct sign_or_none as [->| ->]; [by destruct apart|]. by right; right.
    - left. by apply gap_head. }
  apply (number_match U t [] [] d1 (gap ++ sg ++ d2)); try done; auto.
Qed.

Lemma two_numbers_gap (i : nat) :
  length d1 ≤ i < length d1 + length gap → match_at U (_NUM_RE U) t i = None.
Proof.
  intros Hi.
  assert (∀ j, j < length gap → char_at t (length d1 + j) = gap !! j) as Hat.
  { intros j Hj. unfold char_at, t. rewrite lookup_app_r by lia.
    rewrite lookup_app_l by lia. f_equal. lia. }
  assert (∀ j c, gap !! j = Some c → Chr.is_decimal U c = false) as Hno.
  { intros j c Hc. by apply (Forall_lookup_1 _ _ _ _ gap_no_digit) in Hc. }
  replace i with (length d1 + (i - length d1)) by lia.
  set (j := i - length d1). assert (j < length gap) as Hj by lia.
  destruct (lookup_lt_is_Some_2 gap j Hj) as [c Hc].
  apply number_none.
  - rewrite Hat, Hc by done. simpl. by eapply Hno.
  - rewrite Hat, Hc by done. simpl. intros ->%N.eqb_eq.
    assert (S j < length gap) as Hj'.
    { destruct (decide (S j = length gap)) as [Heq|]; [|lia]. exfalso.
      destruct (gap_last (N_of_ascii "-")) as [_ ?]; [|done].
      rewrite last_lookup, <- Heq. done. }
    replace (S (length d1 + j)) with (length d1 + S j) by lia. rewrite Hat by done.
    destruct (lookup_lt_is_Some_2 gap (S j) Hj') as [c' Hc']. rewrite Hc'. simpl.
    by eapply Hno.
Qed.

Lemma two_numbers_second :
  match_at U (_NUM_RE U) t (length d1 + length gap) = Some (MState (length t) []).
Proof.
  assert (length t = length d1 + length gap + length sg + length d2) as ->
    by (unfold t; solve_length).
  apply (number_match U t (d1 ++ gap) sg d2 []); try done; auto.
  - unfold t. by rewrite app_nil_r, <- !app_assoc.
  - by rewrite length_app.
  - destruct gap as [|x g _] using rev_ind.
    + rewrite app_nil_r. destruct d1 as [|x d _] using rev_ind; [done|].
      rewrite last_snoc. simpl. apply Forall_app in d1_digits as [_ Hx].
      apply Forall_cons in Hx as [Hx _]. revert Hx.
      unfold Chr.is_ascii_digit, Chr.is_ascii_letter, Chr.between.
      intros [H1 H2]%andb_true_iff. apply N.leb_le in H1, H2.
      repeat match goal with
             | |- context [(?a <=? ?b)%N] => destruct (N.leb_spec a b); try lia
             end; done.
    + rewrite app_assoc, last_snoc. simpl. apply gap_last. by rewrite last_snoc.
Qed.

Lemma two_numbers_matches :
  matches U (_NUM_RE U) t
  = [(0, MState (length d1) []); (length d1 + length gap, MState (length t) [])].
Proof.
  assert (length t = length d1 + length gap + length sg + length d2) as Hlen
    by (unfold t; solve_length).
  assert (0 < length d1) by (destruct d1; [done|simpl; lia]).
  assert (0 < length d2) by (destruct d2; [done|simpl; lia]).
  unfold matches.
  rewrite (scan_hit U _ t _ 0 _ ltac:(lia) two_numbers_first) by (simpl; lia).
  simpl pos. f_equal.
  replace (length t) with (length gap + S (length d1 + length sg + length d2 - 1)) at 1 by lia.
  rewrite scan_gap; [|apply two_numbers_gap|lia].
  rewrite (scan_hit U _ t _ (length d1 + length gap) _ ltac:(lia) two_numbers_second)
    by (simpl; lia).
  simpl pos. f_equal. apply scan_end. apply number_none.
  - unfold char_at. by rewrite lookup_ge_None_2.
  - unfold char_at. by rewrite lookup_ge_None_2.
Qed.

Lemma two_numbers_tokens : numbers_from_text U (Some t) = [d1; sg ++ d2].
Proof.
  unfold numbers_from_text, findall0. change (or_empty (Some t)) with t.
  rewrite two_numbers_matches. simpl. unfold slice. f_equal; [|f_equal].
  - rewrite Nat.sub_0_r, drop_0. unfold t. by rewrite take_app_length.
  - assert (t = (d1 ++ gap) ++ sg ++ d2) as Ht by (unfold t; by rewrite <- app_assoc).
    rewrite <- length_app. rewrite Ht at 2. rewrite drop_app_length. apply take_ge.
    rewrite Ht, !length_app. lia.
Qed.

End TwoNumbers.

(** X18: Two runs of at most three ASCII digits are two number tokens when
    the text between them has no digit, starts with a character that is
    no part of a number and no ASCII letter, and ends with neither an
    ASCII letter nor a hyphen.  A hyphen directly before the second run
    is part of its token. *)
Theorem numbers_of_two_runs (U : ucd) (d1 gap sg d2 : str) :
  short_number d1 → short_number d2 → sg = [] ∨ sg = lit "-" →
  Forall (λ c, Chr.is_decimal U c = false) gap →
  (∀ c, head gap = Some c → outside_number U c = true) →
  (∀ c, last gap = Some c → Chr.is_ascii_letter c = false ∧ c ≠ N_of_ascii "-") →
  gap ≠ [] ∨ sg ≠ [] →
  numbers_from_text U (Some (d1 ++ gap ++ sg ++ d2)) = [d1; sg ++ d2].
Proof.
  intros (? & ? & ?) (? & ? & ?) ? ? ? ? ?. by apply two_numbers_tokens.
Qed.

Lemma numbers_of_two_runs_witness :
  numbers_from_text ascii_ucd (Some (lit "3" ++ lit " to - " ++ lit "-" ++ lit "12"))
  = [lit "3"; lit "-" ++ lit "12"].
Proof.
  apply (numbers_of_two_runs ascii_ucd (lit "3") (lit " to - ") (lit "-") (lit "12")).
  - repeat split; by_evaluation.
  - repeat split; by_evaluation.
  - by right.
  - by_evaluation.
  - by intros c [= <-].
  - by intros c [= <-].
  - by left.
Defined.

(* ------------------------------------------------------------------ *)
(** ** A scoreline of the facts in the body *)










(* ------------------------------------------------------------------ *)
(** ** Runs of more than three digits *)

Lemma thirds_step (s : str) : s ≠ [] → thirds s = take 3 s :: thirds (drop 3 s).
Proof. destruct s as [|a [|b [|c rest]]]; done. Qed.

Lemma ascii_digit_plain (c : char) :
  Chr.is_ascii_digit c = true →
  Chr.only "-" c = false ∧ Chr.only "," c = false ∧ Chr.only "." c = false ∧
  Chr.only "%" c = false ∧ Chr.is_ascii_letter c = false.
Proof.
  unfold Chr.is_ascii_digit, Chr.is_ascii_letter, Chr.between, Chr.only.
  intros [H1 H2]%andb_true_iff. apply N.leb_le in H1, H2.
  repeat match goal with
         | |- context [(?a <=? ?b)%N] => destruct (N.leb_spec a b); try lia
         end.
  repeat split; try done; apply N.eqb_neq; intros ->; simpl in *; lia.
Qed.

Section DigitRun.
Variable U : ucd.
Variable t : str.
Hypothesis all_digits : Forall (λ c, Chr.is_ascii_digit c = true) t.

Lemma digit_or_end (q : char → bool) (o : option char) (l : str) :
  Forall (λ c, Chr.is_ascii_digit c = true) l →
  (∀ c, Chr.is_ascii_digit c = true → q c = false) →
  o = head l ∨ o = last l → holds q o = false.
Proof.
  intros Hl Hq [-> | ->].
  - destruct l as [|c l]; [done|]. apply Forall_cons in Hl as [Hc _]. by apply Hq.
  - destruct l as [|c l _] using rev_ind; [done|]. rewrite last_snoc.
    apply Forall_app in Hl as [_ [Hc _]%Forall_cons]. by apply Hq.
Qed.

Lemma digit_run_match (a : nat) :
  a < length t →
  match_at U (_NUM_RE U) t a = Some (MState (a + length (take 3 (drop a t))) []).
Proof.
  intros Ha.
  assert (Forall (λ c, Chr.is_ascii_digit c = true) (drop 3 (drop a t))) as Hpost
    by (by do 2 apply Forall_drop).
  assert (Forall (λ c, Chr.is_ascii_digit c = true) (take a t)) as Hpre
    by (by apply Forall_take).
  replace (a + length (take 3 (drop a t)))
    with (a + length (@nil N) + length (take 3 (drop a t))) by (simpl; lia).
  apply (number_match U t (take a t) [] (take 3 (drop a t)) (drop 3 (drop a t))).
  - simpl. by rewrite !take_drop.
  - rewrite length_take. lia.
  - apply (digit_or_end _ _ _ Hpre); [|by right]. intros c Hc. by apply ascii_digit_plain.
  - by left.
  - by apply Forall_take, Forall_drop.
  - intros Hnil. apply (f_equal length) in Hnil. rewrite length_take, length_drop in Hnil.
    cbn [length] in Hnil. lia.
  - rewrite length_take. lia.
  - rewrite length_take, length_drop.
    destruct (le_lt_dec 3 (length t - a)); [left; lia|right].
    rewrite drop_ge by (rewrite length_drop; lia). done.
  - apply (digit_or_end _ _ _ Hpost); [|by left]. intros c Hc. by apply ascii_digit_plain.
  - apply (digit_or_end _ _ _ Hpost); [|by left]. intros c Hc. by apply ascii_digit_plain.
  - apply (digit_or_end _ _ _ Hpost); [|by left]. intros c Hc. by apply ascii_digit_plain.
  - apply (digit_or_end _ _ _ Hpost); [|by left]. intros c Hc. by apply ascii_digit_plain.
Qed.

Lemma digit_run_scan (fuel : nat) :
  ∀ a, a ≤ length t → length t - a ≤ fuel →
  map (λ m, slice t (fst m) (pos (snd m))) (scan U (_NUM_RE U) t fuel a) = thirds (drop a t).
Proof.
  induction fuel as [|fuel IH]; intros a Ha Hfuel.
  - rewrite drop_ge by lia. done.
  - destruct (decide (a = length t)) as [->|Hne].
    + rewrite drop_ge by lia. rewrite scan_end; [done|].
      apply number_none; unfold char_at; by rewrite lookup_ge_None_2 by lia.
    + assert (a < length t) as Hlt by lia.
      assert (0 < length (take 3 (drop a t))) as Hpos
        by (rewrite length_take, length_drop; lia).
      rewrite (scan_hit U _ t fuel a _ Ha (digit_run_match a Hlt)) by (simpl; lia).
      rewrite thirds_step by (intros Hnil; apply (f_equal length) in Hnil;
                              rewrite length_drop in Hnil; cbn [length] in Hnil; lia).
      rewrite map_cons. cbn [fst snd pos]. f_equal.
      * unfold slice. replace (a + length (take 3 (drop a t)) - a)
          with (length (take 3 (drop a t))) by lia.
        rewrite length_take. destruct (le_lt_dec 3 (length (drop a t))).
        -- by rewrite Nat.min_l.
        -- rewrite Nat.min_r by lia. by rewrite !take_ge by lia.
      * rewrite IH.
        -- rewrite length_take, length_drop, drop_drop. f_equal.
           destruct (le_lt_dec 3 (length t - a)).
           ++ by rewrite Nat.min_l.
           ++ rewrite Nat.min_r by lia. by rewrite !drop_ge by lia.
        -- rewrite length_take, length_drop. lia.
        -- rewrite length_take, length_drop. lia.
Qed.

End DigitRun.

(** X19: A text of ASCII digits and nothing else is cut into tokens of three
    digits from the left: no token is longer, so that a number of four
    digits or more without commas is never one token. *)
Theorem digit_run_is_cut (U : ucd) (d : str) :
  Forall (λ c, Chr.is_ascii_digit c = true) d →
  numbers_from_text U (Some d) = thirds d.
Proof.
  intros Hd. unfold numbers_from_text, findall0, matches. change (or_empty (Some d)) with d.
  rewrite (digit_run_scan U d Hd); [done|lia|lia].
Qed.

Lemma digit_run_is_cut_witness :
  numbers_from_text ascii_ucd (Some (lit "12345")) = [lit "123"; lit "45"].
Proof. apply (digit_run_is_cut ascii_ucd (lit "12345")). by_evaluation. Defined.

(* ------------------------------------------------------------------ *)
(** ** Matching before a suffix *)

Section Suffix.
Variable U : ucd.
Variables t s : str.
Variable c0 : char.
Hypothesis s_head : head s = Some c0.

Let n := length t.

Lemma char_at_within (i : nat) : i < n → char_at (t ++ s) i = char_at t i.
Proof. intros Hi. unfold char_at. by rewrite lookup_app_l. Qed.

Lemma char_at_border : char_at (t ++ s) n = Some c0 ∧ char_at t n = None.
Proof.
  split.
  - rewrite (char_at_middle t s n eq_refl). exact s_head.
  - unfold char_at. by apply lookup_ge_None_2.
Qed.

Lemma holds_at_suffix (q : char → bool) (i : nat) :
  q c0 = false → i ≤ n → holds q (char_at (t ++ s) i) = holds q (char_at t i).
Proof.
  intros Hq Hi. destruct (decide (i = n)) as [->|Hne].
  - destruct char_at_border as [-> ->]. done.
  - by rewrite char_at_within by lia.
Qed.

Lemma char_before_within (i : nat) : i ≤ n → char_before (t ++ s) i = char_before t i.
Proof.
  intros Hi. destruct i as [|i]; [done|]. simpl. by rewrite lookup_app_l by (fold n; lia).
Qed.

(** Beyond the text a matcher cannot succeed through a continuation that
    fails there. *)
Lemma run_beyond (r : regex) (st : mstate) (k : mstate → option mstate) :
  (∀ st', n < pos st' → k st' = None) → n < pos st → run U r (t ++ s) st k = None.
Proof.
  intros Hk Hst. apply (local_none (t ++ s)); [apply run_local|].
  intros st' [Hle _]. apply Hk. lia.
Qed.

Lemma loop_beyond (r : regex) (lo : nat) (k : mstate → option mstate)
    (fuel count : nat) (st : mstate) :
  (∀ st', n < pos st' → k st' = None) → n < pos st →
  repeat_loop (run U r (t ++ s)) lo k fuel count st = None.
Proof.
  intros Hk. revert count st; induction fuel as [|fuel IH]; intros count st Hst.
  - rewrite repeat_loop_O, Hk by done. by destruct (lo <=? count)%nat.
  - rewrite repeat_loop_S, Hk by done. rewrite run_beyond; [by destruct (lo <=? count)%nat| |done].
    intros st' Hst'. destruct (pos st' =? pos st)%nat; [done|by apply IH].
Qed.

(** Up to the end of the text, a matcher goes in the text with a suffix
    as it goes in the text, when the suffix does not change what its
    look-aheads see and the continuation fails beyond the text. *)
Lemma loop_suffix (r : regex) (lo : nat) (k k' : mstate → option mstate)
    (fuel count : nat) (st : mstate) :
  (∀ st k k', pos st ≤ n → (∀ st', pos st' ≤ n → k' st' = k st') →
     (∀ st', n < pos st' → k' st' = None) → run U r (t ++ s) st k' = run U r t st k) →
  (∀ st', pos st' ≤ n → k' st' = k st') → (∀ st', n < pos st' → k' st' = None) →
  pos st ≤ n →
  repeat_loop (run U r (t ++ s)) lo k' fuel count st
  = repeat_loop (run U r t) lo k fuel count st.
Proof.
  intros Hbody Hin Hout. revert count st; induction fuel as [|fuel IH]; intros count st Hst.
  - by rewrite !repeat_loop_O, Hin.
  - rewrite !repeat_loop_S, Hin by done.
    rewrite (Hbody st (λ st', if (pos st' =? pos st)%nat then None
                              else repeat_loop (run U r t) lo k fuel (S count) st')); try done.
    + intros st' Hst'. destruct (pos st' =? pos st)%nat; [done|by apply IH].
    + intros st' Hst'. destruct (pos st' =? pos st)%nat; [done|by apply loop_beyond].
Qed.

Lemma run_suffix (r : regex) :
  ahead_blind_to U c0 r = true →
  ∀ st k k', pos st ≤ n → (∀ st', pos st' ≤ n → k' st' = k st') →
    (∀ st', n < pos st' → k' st' = None) → run U r (t ++ s) st k' = run U r t st k.
Proof.
  induction r as [q|r1 IH1 r2 IH2|lo hi r IH|r IH|q|q|]; intros Hblind st k k' Hst Hin Hout;
    simpl in Hblind.
  - rewrite !run_Class. destruct (decide (pos st = n)) as [Heq|Hne].
    + rewrite Heq. destruct char_at_border as [-> ->]. simpl.
      destruct (q c0); [apply Hout; simpl; lia|done].
    + rewrite char_at_within by lia. destruct (holds q (char_at t (pos st))); [|done].
      apply Hin. simpl. lia.
  - apply andb_true_iff in Hblind as [H1 H2]. rewrite !run_Seq. apply IH1; try done.
    + intros st' Hst'. by apply IH2.
    + intros st' Hst'. by apply run_beyond.
  - rewrite !run_Repeat.
    assert (repeat_loop (run U r t) lo k (match hi with Some h => h | None => length t end) 0 st
            = repeat_loop (run U r t) lo k
                (match hi with Some h => h | None => length (t ++ s) end) 0 st) as ->.
    { destruct hi as [h|]; [done|].
      apply (repeat_loop_fuel t); [apply run_local|..]; rewrite ?length_app; lia. }
    apply loop_suffix; try done. by apply IH.
  - rewrite !run_Group. apply IH; try done.
    + intros st' Hst'. by apply Hin.
    + intros st' Hst'. by apply Hout.
  - rewrite !run_NotBehind, char_before_within by done.
    destruct (holds q (char_before t (pos st))); [done|by apply Hin].
  - apply negb_true_iff in Hblind. rewrite !run_NotAhead, holds_at_suffix by done.
    destruct (holds q (char_at t (pos st))); [done|by apply Hin].
  - apply negb_true_iff in Hblind.
    rewrite !run_WordBoundary, char_before_within, holds_at_suffix by done.
    destruct (xorb _ _); [by apply Hin|done].
Qed.

(** A pattern of which no class takes the first character of the suffix
    does not go beyond the text. *)
Lemma loop_stops (r : regex) (lo : nat) (k1 k2 : mstate → option mstate)
    (fuel count : nat) (st : mstate) :
  (∀ st k1 k2, pos st ≤ n → (∀ st', pos st' ≤ n → k1 st' = k2 st') →
     run U r (t ++ s) st k1 = run U r (t ++ s) st k2) →
  (∀ st', pos st' ≤ n → k1 st' = k2 st') → pos st ≤ n →
  repeat_loop (run U r (t ++ s)) lo k1 fuel count st
  = repeat_loop (run U r (t ++ s)) lo k2 fuel count st.
Proof.
  intros Hbody Hin. revert count st; induction fuel as [|fuel IH]; intros count st Hst.
  - by rewrite !repeat_loop_O, Hin.
  - rewrite !repeat_loop_S, Hin by done.
    rewrite (Hbody st _ (λ st', if (pos st' =? pos st)%nat then None
                         else repeat_loop (run U r (t ++ s)) lo k2 fuel (S count) st')); try done.
    intros st' Hst'. destruct (pos st' =? pos st)%nat; [done|by apply IH].
Qed.

Lemma run_stops (r : regex) :
  stops_at c0 r = true →
  ∀ st k1 k2, pos st ≤ n → (∀ st', pos st' ≤ n → k1 st' = k2 st') →
    run U r (t ++ s) st k1 = run U r (t ++ s) st k2.
Proof.
  induction r as [q|r1 IH1 r2 IH2|lo hi r IH|r IH|q|q|]; intros Hstop st k1 k2 Hst Hin;
    simpl in Hstop.
  - apply negb_true_iff in Hstop. rewrite !run_Class.
    destruct (decide (pos st = n)) as [Heq|Hne].
    + rewrite Heq. destruct char_at_border as [-> _]. simpl. by rewrite Hstop.
    + destruct (holds q (char_at (t ++ s) (pos st))); [|done]. apply Hin. simpl. lia.
  - apply andb_true_iff in Hstop as [H1 H2]. rewrite !run_Seq. apply IH1; try done.
    intros st' Hst'. by apply IH2.
  - rewrite !run_Repeat. apply loop_stops; try done. by apply IH.
  - rewrite !run_Group. apply IH; try done. intros st' Hst'. by apply Hin.
  - rewrite !run_NotBehind. destruct (holds q _); [done|by apply Hin].
  - rewrite !run_NotAhead. destruct (holds q _); [done|by apply Hin].
  - rewrite !run_WordBoundary. destruct (xorb _ _); [by apply Hin|done].
Qed.

(** A match that ends in the text is the match in the text. *)
Lemma match_within (r : regex) (i : nat) :
  ahead_blind_to U c0 r = true → i ≤ n →
  run U r (t ++ s) (MState i []) (within n) = match_at U r t i.
Proof.
  intros Hblind Hi. unfold match_at. apply run_suffix; try done.
  - intros st' Hst'. unfold within. by rewrite (proj2 (Nat.leb_le _ _)).
  - intros st' Hst'. unfold within. by rewrite (proj2 (Nat.leb_gt _ _)).
Qed.

Lemma within_some (st' : mstate) : pos st' ≤ n → Some st' = within n st'.
Proof. intros Hst'. unfold within. by rewrite (proj2 (Nat.leb_le _ _)). Qed.

Lemma number_match_suffix (i : nat) :
  stops_at c0 (_NUM_RE U) = true → ahead_blind_to U c0 (_NUM_RE U) = true → i ≤ n →
  match_at U (_NUM_RE U) (t ++ s) i = match_at U (_NUM_RE U) t i.
Proof.
  intros Hstop Hblind Hi. rewrite <- match_within by done. unfold match_at.
  apply run_stops; try done. apply within_some.
Qed.

Lemma run_ext (r : regex) (T : str) (st : mstate) (k1 k2 : mstate → option mstate) :
  (∀ st', k1 st' = k2 st') → run U r T st k1 = run U r T st k2.
Proof. intros Hk. apply (proj1 (run_local U T r)). intros st' _. apply Hk. Qed.

Lemma score_match_suffix (i : nat) :
  Forall (λ c, Chr.is_decimal U c = false) s → Chr.is_word U c0 = false → i ≤ n →
  match_at U (_SCORE_RE U) (t ++ s) i = match_at U (_SCORE_RE U) t i.
Proof.
  intros Hs Hword Hi. rewrite <- match_within; [|by (simpl; rewrite Hword)|done].
  unfold match_at, _SCORE_RE. rewrite !(run_Seq U WordBoundary).
  apply run_ext. intros st1. rewrite !(run_Seq U (Group _)).
  apply run_ext. intros st2. rewrite !(run_Seq U (Repeat _ _ _)).
  apply run_ext. intros st3. rewrite !(run_Seq U (Class _)).
  apply run_ext. intros st4. rewrite !(run_Seq U (Repeat _ _ _)).
  apply run_ext. intros st5.
  destruct (le_lt_dec (pos st5) n) as [Hle|Hgt].
  - apply run_stops; [|done|apply within_some]. simpl.
    assert (Chr.is_decimal U c0 = false) as ->; [|done].
    destruct s as [|x s']; [done|]. injection s_head as ->.
    by apply Forall_cons in Hs as [? _].
  - assert (holds (Chr.is_decimal U) (char_at (t ++ s) (pos st5)) = false) as Hno.
    { unfold char_at. rewrite lookup_app_r by (fold n; lia).
      destruct (s !! (pos st5 - length t)) as [c|] eqn:Hc; [|done].
      simpl. by apply (Forall_lookup_1 _ _ _ _ Hs Hc). }
    rewrite !run_Seq, !run_Group. by rewrite !needed_class_none.
Qed.

End Suffix.

(** A match from a position of the text ends in the text. *)
Lemma match_bounds (U : ucd) (t : str) (r : regex) (i : nat) (st : mstate) :
  match_at U r t i = Some st → i ≤ length t → i ≤ pos st ∧ pos st ≤ length t.
Proof.
  intros (Hlen & Hsp & _)%(match_at_after U t (λ _, true)) Hi. simpl in Hlen.
  split; [lia|]. destruct (le_lt_dec (pos st) (length t)) as [|Hgt]; [done|].
  specialize (Hsp (length t) ltac:(simpl; lia)). unfold char_at in Hsp.
  by rewrite lookup_ge_None_2 in Hsp.
Qed.

Lemma span_bound (t : str) (q : char → bool) (a b : nat) :
  spans t q a b → a < b → b ≤ length t.
Proof.
  intros Hsp Hab. destruct (le_lt_dec b (length t)) as [|Hgt]; [done|].
  specialize (Hsp (b - 1) ltac:(lia)). unfold char_at in Hsp.
  by rewrite lookup_ge_None_2 in Hsp by lia.
Qed.

Lemma scan_le (U : ucd) (r : regex) (t : str) (fuel j i : nat) (st : mstate) :
  (i, st) ∈ scan U r t fuel j → i ≤ length t.
Proof.
  revert j; induction fuel as [|fuel IH]; intros j; [by intros ?%elem_of_nil|].
  rewrite scan_S. destruct (Nat.ltb_spec (length t) j); [by intros ?%elem_of_nil|].
  destruct (match_at U r t j) as [st'|].
  - intros [[= -> ->]|Hin]%elem_of_cons; [done|]. by eapply IH.
  - apply IH.
Qed.

Lemma slice_suffix (t s : str) (i j : nat) : j ≤ length t → slice (t ++ s) i j = slice t i j.
Proof.
  intros Hj. unfold slice. destruct (le_lt_dec i (length t)).
  - rewrite drop_app_le by done. apply take_app_le. rewrite length_drop. lia.
  - by replace (j - i) with 0 by lia.
Qed.

(** No scoreline starts where no digit is. *)
Lemma score_none (U : ucd) (t : str) (i : nat) :
  holds (Chr.is_decimal U) (char_at t i) = false → match_at U (_SCORE_RE U) t i = None.
Proof.
  intros Hno. unfold match_at, _SCORE_RE. rewrite run_Seq, run_WordBoundary.
  destruct (xorb _ _); [|done].
  apply seq_none_l. intros k'. apply group_none. intros k''. by apply needed_class_none.
Qed.

Section SuffixScan.
Variable U : ucd.
Variable r : regex.
Variables t s : str.
Hypothesis match_in : ∀ i, i ≤ length t → match_at U r (t ++ s) i = match_at U r t i.
Hypothesis match_out : ∀ i, length t < i → match_at U r (t ++ s) i = None.

Lemma scan_beyond (fuel : nat) : ∀ i, length t < i → scan U r (t ++ s) fuel i = [].
Proof.
  induction fuel as [|fuel IH]; intros i Hi; [done|].
  rewrite scan_S, match_out by done. rewrite IH by lia. by destruct (_ <? _)%nat.
Qed.

Lemma scan_suffix (extra fuel : nat) :
  ∀ i, S (length t) ≤ fuel + i → scan U r (t ++ s) (fuel + extra) i = scan U r t fuel i.
Proof.
  induction fuel as [|fuel IH]; intros i Hi.
  - apply scan_beyond. lia.
  - destruct (le_lt_dec i (length t)) as [Hle|Hgt].
    + change (S fuel + extra) with (S (fuel + extra)). rewrite !scan_S, match_in by done.
      rewrite !(proj2 (Nat.ltb_ge _ _)) by (rewrite ?length_app; lia).
      destruct (match_at U r t i) as [st|] eqn:Hm.
      * apply match_bounds in Hm as [? ?]; [|done]. f_equal. apply IH.
        destruct (Nat.eqb_spec (pos st) i); lia.
      * apply IH. lia.
    + rewrite scan_beyond by done. rewrite scan_S. by rewrite (proj2 (Nat.ltb_lt _ _)).
Qed.

Lemma matches_suffix : matches U r (t ++ s) = matches U r t.
Proof.
  unfold matches. rewrite length_app.
  change (S (length t + length s)) with (S (length t) + length s).
  apply scan_suffix. lia.
Qed.

Lemma findall0_suffix : findall0 U r (t ++ s) = findall0 U r t.
Proof.
  unfold findall0. rewrite matches_suffix. apply map_ext_in.
  intros [i st] Hin%list_elem_of_In. simpl. apply slice_suffix.
  pose proof (scan_le _ _ _ _ _ _ _ Hin) as Hi.
  apply scan_match_at in Hin. by apply match_bounds in Hin as [_ ?].
Qed.

Lemma findall2_suffix (q : char → bool) :
  groups_within q r → findall2 U r (t ++ s) = findall2 U r t.
Proof.
  intros Hgroups. unfold findall2. rewrite matches_suffix.
  assert (∀ m, m ∈ matches U r t → Forall (good_cap t q) (caps (snd m))) as Hcaps.
  { intros [i st] Hin%scan_match_at.
    apply (match_at_after U t q) in Hin as (_ & _ & Hc). apply Hc; [done|constructor]. }
  induction (matches U r t) as [|[i st] ms IH]; [done|].
  cbn [omap list_omap]. rewrite IH by (intros m Hm; apply Hcaps; by right).
  specialize (Hcaps (i, st) ltac:(left)). cbn [snd] in *.
  destruct (caps st) as [|[i2 j2] [|[i1 j1] [|? ?]]]; try done.
  apply Forall_cons in Hcaps as [[H2 S2] [[H1 S1] _]%Forall_cons]. simpl in *.
  rewrite !slice_suffix; [done|by eapply span_bound..].
Qed.

End SuffixScan.

(* ------------------------------------------------------------------ *)
(** ** Tokens in a context without digits *)

Lemma no_digit_beyond (U : ucd) (t s : str) (i : nat) :
  Forall (λ c, Chr.is_decimal U c = false) s → length t ≤ i →
  holds (Chr.is_decimal U) (char_at (t ++ s) i) = false.
Proof.
  intros Hs Hi. unfold char_at. rewrite lookup_app_r by done.
  destruct (s !! (i - length t)) as [c|] eqn:Hc; [|done].
  simpl. by apply (Forall_lookup_1 _ _ _ _ Hs Hc).
Qed.

Lemma border_classes (U : ucd) (c : char) :
  border U c = true →
  Chr.is_word U c = false ∧ Chr.is_ascii_letter c = false ∧ Chr.only "-" c = false ∧
  Chr.is_decimal U c = false ∧ Chr.only "," c = false ∧ Chr.only "." c = false ∧
  Chr.only "%" c = false.
Proof.
  unfold border, number_char. intros [Hw Hn]%andb_true_iff.
  apply negb_true_iff in Hw, Hn. repeat (apply orb_false_iff in Hn as [Hn ?]).
  repeat split; try done.
  revert Hw. unfold Chr.is_word, Chr.is_ascii, Chr.is_ascii_letter, Chr.between.
  destruct (N.ltb_spec c 128).
  - by intros [[? _]%orb_false_iff _]%orb_false_iff.
  - intros _.
    repeat match goal with
           | |- context [(?a <=? ?b)%N] => destruct (N.leb_spec a b); try lia
           end; done.
Qed.

(** Text without digits after a text adds no token to it, when it starts
    with a border character. *)
Lemma suffix_tokens (U : ucd) (t s : str) :
  Forall (λ c, Chr.is_decimal U c = false) s →
  (∀ c, head s = Some c → border U c = true) →
  numbers_from_text U (Some (t ++ s)) = numbers_from_text U (Some t) ∧
  scorelines_from_text U (Some (t ++ s)) = scorelines_from_text U (Some t).
Proof.
  intros Hs Hhead. destruct s as [|c0 s'] eqn:Es; [by rewrite app_nil_r|]. rewrite <- Es in *.
  assert (head s = Some c0) as Hc0 by (by rewrite Es).
  destruct (border_classes U c0) as (Hw & Hl & Hm & Hd & Hc & Hp & Hpc); [by apply Hhead|].
  unfold numbers_from_text, scorelines_from_text. change (or_empty (Some ?x)) with x. split.
  - apply findall0_suffix.
    + intros i Hi. apply (number_match_suffix U t s c0); try done.
      * simpl. by rewrite Hm, Hd, Hc, Hp, Hpc.
      * simpl. by rewrite Hl.
    + intros i Hi. apply number_none; [apply no_digit_beyond; [done|lia]|].
      intros _. apply no_digit_beyond; [done|lia].
  - apply (findall2_suffix U _ t s) with (q := Chr.is_decimal U).
    + intros i Hi. by apply (score_match_suffix U t s c0).
    + intros i Hi. apply score_none. apply no_digit_beyond; [done|lia].
    + simpl. repeat split; auto.
Qed.

(** Text without digits before a text adds no token to it, when it ends
    with a border character. *)
Lemma prefix_tokens (U : ucd) (p t : str) :
  Forall (λ c, Chr.is_decimal U c = false) p →
  (∀ c, last p = Some c → border U c = true) →
  numbers_from_text U (Some (p ++ t)) = numbers_from_text U (Some t) ∧
  scorelines_from_text U (Some (p ++ t)) = scorelines_from_text U (Some t).
Proof.
  intros Hp Hlast. destruct (last p) as [c|] eqn:Hc;
    [|by apply last_None in Hc as ->].
  destruct (border_classes U c) as (Hw & Hl & Hm & _); [by apply Hlast|].
  assert (∀ i, i < length p → holds (Chr.is_decimal U) (char_at (p ++ t) i) = false) as Hno.
  { intros i Hi. unfold char_at. rewrite lookup_app_l by done.
    destruct (p !! i) as [x|] eqn:Hx; [|done]. simpl.
    by apply (Forall_lookup_1 _ _ _ _ Hp Hx). }
  unfold numbers_from_text, scorelines_from_text. change (or_empty (Some ?x)) with x. split.
  - apply (findall0_shift U p c t Hc); [simpl; by rewrite Hl|].
    intros i Hi. apply number_none; [by apply Hno|].
    destruct (decide (S i = length p)) as [Heq|Hne]; [|intros _; apply Hno; lia].
    unfold char_at. rewrite lookup_app_l by done.
    rewrite last_lookup, <- Heq in Hc. simpl in Hc. rewrite Hc. simpl. by rewrite Hm.
  - apply (findall2_shift U p c t Hc); [simpl; by rewrite Hw|].
    intros i Hi. apply score_none. by apply Hno.
Qed.

(* ------------------------------------------------------------------ *)
(** ** app/main.py: the body after the guard *)

Lemma note_no_digit (U : ucd) : Forall (λ c, Chr.is_decimal U c = false) NOTE.
Proof. unfold NOTE. simpl. repeat constructor. Qed.

(** The note adds no token to a body. *)
Lemma note_tokens (U : ucd) (body : str) :
  numbers_from_text U (Some (body ++ NOTE)) = numbers_from_text U (Some body) ∧
  scorelines_from_text U (Some (body ++ NOTE)) = scorelines_from_text U (Some body).
Proof. apply suffix_tokens; [apply note_no_digit|]. by intros c [= <-]. Qed.

(** X20: Nothing is omitted from a body in which the guard found something:
    the note is added and the figures stay.  The body that goes out has
    the number tokens and scorelines of the body that came in, and the
    guard would find in it what it found. *)
Theorem the_note_omits_nothing (U : ucd) (body : str) (facts : list fact) (out : str) :
  validated_body U body facts = Ok out →
  body `prefix_of` out ∧
  numbers_from_text U (Some out) = numbers_from_text U (Some body) ∧
  scorelines_from_text U (Some out) = scorelines_from_text U (Some body) ∧
  assert_numbers_in_facts U (Some out) (Some facts)
  = assert_numbers_in_facts U (Some body) (Some facts).
Proof.
  unfold validated_body.
  destruct (assert_numbers_in_facts U (Some body) (Some facts)) as [missing|e] eqn:Hm;
    [|done].
  simpl. intros [= <-]. destruct missing as [|x missing]; [by rewrite Hm|].
  destruct (note_tokens U body) as [Hn Hs].
  split; [by apply prefix_app_r|]. split; [done|]. split; [done|].
  rewrite <- Hm. unfold assert_numbers_in_facts, flagged.
  change (or_empty (Some ?x)) with x. by rewrite Hn, Hs.
Qed.

Lemma the_note_omits_nothing_witness :
  lit "Spurs won 7-0." `prefix_of` lit "Spurs won 7-0." ++ NOTE ∧
  numbers_from_text ascii_ucd (Some (lit "Spurs won 7-0." ++ NOTE))
  = numbers_from_text ascii_ucd (Some (lit "Spurs won 7-0.")) ∧
  scorelines_from_text ascii_ucd (Some (lit "Spurs won 7-0." ++ NOTE))
  = scorelines_from_text ascii_ucd (Some (lit "Spurs won 7-0.")) ∧
  assert_numbers_in_facts ascii_ucd (Some (lit "Spurs won 7-0." ++ NOTE))
    (Some [fact_of "3-1"])
  = assert_numbers_in_facts ascii_ucd (Some (lit "Spurs won 7-0.")) (Some [fact_of "3-1"]).
Proof.
  apply (the_note_omits_nothing ascii_ucd (lit "Spurs won 7-0.") [fact_of "3-1"]).
  vm_compute; reflexivity.
Defined.

(** The guard reads the tokens of the body and nothing else. *)
Lemma same_tokens_same_result (U : ucd) (b1 b2 : str) (facts : option (list fact)) :
  numbers_from_text U (Some b1) = numbers_from_text U (Some b2) →
  scorelines_from_text U (Some b1) = scorelines_from_text U (Some b2) →
  assert_numbers_in_facts U (Some b1) facts = assert_numbers_in_facts U (Some b2) facts.
Proof.
  intros Hn Hs. unfold assert_numbers_in_facts, flagged.
  change (or_empty (Some ?x)) with x. by rewrite Hn, Hs.
Qed.

(** X21: Text without digits around a body changes nothing, when a border
    character (a space, say) is next to the body on either side: the
    tokens are those of the body, and so is the result. *)
Theorem tokens_in_context (U : ucd) (p body s : str) (facts : option (list fact)) :
  Forall (λ c, Chr.is_decimal U c = false) p → (∀ c, last p = Some c → border U c = true) →
  Forall (λ c, Chr.is_decimal U c = false) s → (∀ c, head s = Some c → border U c = true) →
  numbers_from_text U (Some (p ++ body ++ s)) = numbers_from_text U (Some body) ∧
  scorelines_from_text U (Some (p ++ body ++ s)) = scorelines_from_text U (Some body) ∧
  assert_numbers_in_facts U (Some (p ++ body ++ s)) facts
  = assert_numbers_in_facts U (Some body) facts.
Proof.
  intros Hp Hlast Hs Hhead.
  destruct (prefix_tokens U p (body ++ s) Hp Hlast) as [Hn1 Hs1].
  destruct (suffix_tokens U body s Hs Hhead) as [Hn2 Hs2].
  assert (numbers_from_text U (Some (p ++ body ++ s)) = numbers_from_text U (Some body))
    as Hn by (by rewrite Hn1).
  assert (scorelines_from_text U (Some (p ++ body ++ s))
          = scorelines_from_text U (Some body)) as Hsc by (by rewrite Hs1).
  split; [done|]. split; [done|]. by apply same_tokens_same_result.
Qed.

Lemma tokens_in_context_witness :
  numbers_from_text ascii_ucd (Some (lit "Spurs won " ++ lit "4-0" ++ lit " away."))
  = numbers_from_text ascii_ucd (Some (lit "4-0")) ∧
  scorelines_from_text ascii_ucd (Some (lit "Spurs won " ++ lit "4-0" ++ lit " away."))
  = scorelines_from_text ascii_ucd (Some (lit "4-0")) ∧
  assert_numbers_in_facts ascii_ucd (Some (lit "Spurs won " ++ lit "4-0" ++ lit " away."))
    (Some [fact_of "3-1"])
  = assert_numbers_in_facts ascii_ucd (Some (lit "4-0")) (Some [fact_of "3-1"]).
Proof.
  apply (tokens_in_context ascii_ucd (lit "Spurs won ") (lit "4-0") (lit " away.")
           (Some [fact_of "3-1"])).
  - by_evaluation.
  - by intros c [= <-].
  - by_evaluation.
  - by intros c [= <-].
Defined.



(* ------------------------------------------------------------------ *)
(** ** app/main.py: [_get] *)

Lemma get_unset {V : Type} (m : gmap str (option V)) (keys : list str) (d : option V) :
  (∀ k, k ∈ keys → unset m k) → _get m keys d = d.
Proof.
  induction keys as [|k keys IH]; intros Hall; [done|]. simpl.
  destruct (Hall k) as [-> | ->]; [left|..]; apply IH; intros k' Hk'; apply Hall; by right.
Qed.

Lemma get_app {V : Type} (m : gmap str (option V)) (ks1 ks2 : list str) (d : option V) :
  _get m (ks1 ++ ks2) d = _get m ks1 (_get m ks2 d).
Proof.
  induction ks1 as [|k ks1 IH]; [done|]. simpl. by destruct (m !! k) as [[v|]|].
Qed.

(** X23: The first key that the row holds with a value decides: the keys
    before it are not in the row or hold [None], and neither the keys
    after it nor the default are looked at. *)
Theorem get_first_present {V : Type} (m : gmap str (option V)) (ks1 ks2 : list str)
    (k : str) (v : V) (d : option V) :
  (∀ k', k' ∈ ks1 → unset m k') → m !! k = Some (Some v) →
  _get m (ks1 ++ k :: ks2) d = Some v.
Proof.
  intros Hunset Hk. rewrite get_app, get_unset by done. simpl. by rewrite Hk.
Qed.

Lemma get_first_present_witness :
  _get (<[lit "home_team" := None]> {[ lit "homeTeam" := Some (lit "Spurs") ]})
    ([lit "home_team"] ++ lit "homeTeam" :: [lit "home"]) (Some (lit "Home"))
  = Some (lit "Spurs").
Proof.
  apply (get_first_present _ [lit "home_team"] [lit "home"] (lit "homeTeam")).
  - intros k' ->%list_elem_of_singleton. right. by rewrite lookup_insert_eq.
  - rewrite lookup_insert_ne by done. by rewrite lookup_singleton_eq.
Defined.

(** X24: [None] comes back only where the default is [None] and no key holds
    a value: with another default the result is a value. *)
Theorem get_none_iff {V : Type} (m : gmap str (option V)) (keys : list str) (d : option V) :
  _get m keys d = None ↔ d = None ∧ ∀ k, k ∈ keys → unset m k.
Proof.
  induction keys as [|k keys IH]; simpl.
  - split; [intros ->; split; [done|]; by intros k ?%elem_of_nil|by intros [-> _]].
  - destruct (m !! k) as [[v|]|] eqn:Hk.
    + split; [done|]. intros [_ Hall]. destruct (Hall k) as [H|H]; [left|..]; congruence.
    + rewrite IH. split; intros [-> Hall]; (split; [done|]); intros k' Hk'.
      * apply elem_of_cons in Hk' as [->|Hk']; [by right|by apply Hall].
      * apply Hall. by right.
    + rewrite IH. split; intros [-> Hall]; (split; [done|]); intros k' Hk'.
      * apply elem_of_cons in Hk' as [->|Hk']; [by left|by apply Hall].
      * apply Hall. by right.
Qed.

(** X25: A key that holds [None] counts as a key that is not there. *)
Theorem get_none_is_absent {V : Type} (m : gmap str (option V)) (k : str)
    (keys : list str) (d : option V) :
  _get (<[k := None]> m) keys d = _get (delete k m) keys d.
Proof.
  induction keys as [|k' keys IH]; [done|]. simpl. rewrite IH.
  destruct (decide (k' = k)) as [->|Hne].
  - by rewrite lookup_insert_eq, lookup_delete_eq.
  - by rewrite lookup_insert_ne, lookup_delete_ne by done.
Qed.
